(** * ValpoPlanning: underwater sensor-network planner

    Shallow embedding of the acoustic link model ([models.py]) and of the
    NSGA-II problem definition ([optimizer.py]).

    Number model.  Python floats are idealised as the real numbers of the
    Standard Library: rounding, overflow and NaN are outside the model.
    Python integers are [Z] (node flags and tags) or [nat] (lengths and
    list positions). *)

From Stdlib Require Import Reals Lra Lia ZArith List ListSet Bool String Permutation.
Import ListNotations.

Open Scope R_scope.

(** ** models.py *)

Module Models.

(** [numpy.log10] on the positive reals. *)
Definition log10 (x : R) : R := ln x / ln 10.

(** [numpy.radians]. *)
Definition radians (deg : R) : R := deg * PI / 180.

(** [thorp_absorption_coefficient], dB/km for a frequency in kHz. *)
Definition thorp_absorption_coefficient (frequency_khz : R) : R :=
  let f := frequency_khz in
  let alpha := (0.11 * f ^ 2) / (1 + f ^ 2)
               + (44 * f ^ 2) / (4100 + f ^ 2)
               + 0.000275 * f ^ 2
               + 0.003 in
  alpha.

(** [path_loss_acoustic]. *)
Definition path_loss_acoustic (distance_m frequency_khz : R) : R :=
  let distance_km := distance_m / 1000 in
  let spreading_loss := 20 * log10 distance_m in
  let alpha := thorp_absorption_coefficient frequency_khz in
  let absorption_loss := alpha * distance_km in
  let total_loss := spreading_loss + absorption_loss in
  total_loss.

(** [calculate_snr]. *)
Definition calculate_snr
  (distance_m source_level_db noise_level_db frequency_khz : R) : R :=
  let loss := path_loss_acoustic distance_m frequency_khz in
  let received_level := source_level_db - loss in
  let snr := received_level - noise_level_db in
  snr.

Definition tolerance : R := 0.1.

(** The [while high - low > tolerance] loop of [max_communication_range].
    [snr_at] is the signal-to-noise ratio as a function of the distance;
    the loop asks nothing of it.  [fuel] bounds the number of iterations:
    [None] means the bound was reached before the loop exited. *)
Fixpoint range_search (snr_at : R -> R) (min_snr_db : R)
  (fuel : nat) (low high : R) : option R :=
  if Rgt_dec (high - low) tolerance then
    match fuel with
    | O => None
    | S fuel' =>
        let mid := (low + high) / 2 in
        let snr := snr_at mid in
        if Rge_dec snr min_snr_db
        then range_search snr_at min_snr_db fuel' mid high
        else range_search snr_at min_snr_db fuel' low mid
    end
  else Some low.

(** [max_communication_range] with an iteration bound. *)
Definition max_communication_range_within (fuel : nat)
  (min_snr_db source_level_db noise_level_db frequency_khz : R) : option R :=
  range_search
    (fun mid => calculate_snr mid source_level_db noise_level_db frequency_khz)
    min_snr_db fuel 1 10000.

(** Iterations the search over [[1, 10000]] needs: 9999 / 2^17 <= 0.1. *)
Definition search_iterations : nat := 17.

(** [max_communication_range].  The loop always exits within
    [search_iterations] rounds (see [range_search_exits]), so the default
    branch is never taken. *)
Definition max_communication_range
  (min_snr_db source_level_db noise_level_db frequency_khz : R) : R :=
  match max_communication_range_within search_iterations
          min_snr_db source_level_db noise_level_db frequency_khz with
  | Some low => low
  | None => 1
  end.

(** [numpy.arctan2] on the reals. *)
Definition arctan2 (y x : R) : R :=
  if Rlt_dec 0 x then atan (y / x)
  else if Rlt_dec x 0 then
         (if Rle_dec 0 y then atan (y / x) + PI else atan (y / x) - PI)
  else if Rlt_dec 0 y then PI / 2
  else if Rlt_dec y 0 then - (PI / 2)
  else 0.

(** [haversine_distance], in metres. *)
Definition haversine_distance (lat1 lon1 lat2 lon2 : R) : R :=
  let R_earth := 6371000 in
  let lat1_rad := radians lat1 in
  let lat2_rad := radians lat2 in
  let dlat := radians (lat2 - lat1) in
  let dlon := radians (lon2 - lon1) in
  let a := sin (dlat / 2) ^ 2
           + cos lat1_rad * cos lat2_rad * sin (dlon / 2) ^ 2 in
  let c := 2 * arctan2 (sqrt a) (sqrt (1 - a)) in
  let distance := R_earth * c in
  distance.

End Models.

(** ** config.py *)

Module Config.

Record Nsga2Params := {
  population_size : Z;
  generations : Z;
  mutation_rate : R;
  crossover_rate : R;
  max_sensor_nodes : Z;
  max_gateway_buoys : Z;
  tournament_size : Z
}.

Record AcousticModel := {
  frequency_khz : R;
  bandwidth_khz : R;
  source_level_db : R;
  noise_level_db : R;
  min_snr_db : R
}.

Record Bathymetry := {
  depth_min : R;
  depth_max : R;
  depth_mean : R;
  depth_std : R
}.

Record RelativeCosts := {
  sensor_node : Z;
  gateway_buoy : Z
}.

(** The module-level settings the optimizer reads. *)
Record t := {
  BATHYMETRY : Bathymetry;
  ACOUSTIC_MODEL : AcousticModel;
  NSGA2_PARAMS : Nsga2Params;
  RELATIVE_COSTS : RelativeCosts;
  LAT_KM_PER_DEGREE : R
}.

(** The values of [config.py] as shipped. *)
Definition shipped : t := {|
  BATHYMETRY := {| depth_min := 8; depth_max := 25;
                   depth_mean := 20.15; depth_std := 4.20 |};
  ACOUSTIC_MODEL := {| frequency_khz := 20; bandwidth_khz := 10;
                       source_level_db := 170; noise_level_db := 60;
                       min_snr_db := 10 |};
  NSGA2_PARAMS := {| population_size := 160; generations := 320;
                     mutation_rate := 0.22; crossover_rate := 0.88;
                     max_sensor_nodes := 25; max_gateway_buoys := 6;
                     tournament_size := 3 |};
  RELATIVE_COSTS := {| sensor_node := 1; gateway_buoy := 5 |};
  LAT_KM_PER_DEGREE := 111
|}.

End Config.

(** ** Python runtime: exceptions, the [random] module, list slices *)

Module Py.

Inductive exn : Type :=
  | ZeroDivisionError
  | ValueError
  | IndexError.

Inductive result (A : Type) : Type :=
  | Ok (a : A)
  | Raise (e : exn).
Arguments Ok {A} a.
Arguments Raise {A} e.

(** [a / b] on two integers (true division). *)
Definition truediv (a b : Z) : result R :=
  if (b =? 0)%Z then Raise ZeroDivisionError else Ok (IZR a / IZR b).

(** [numpy.clip]: [minimum (maximum x lo) hi]. *)
Definition clip (x lo hi : R) : R := Rmin (Rmax x lo) hi.

Definition Rle_bool (a b : R) : bool := if Rle_dec a b then true else false.
Definition Rlt_bool (a b : R) : bool := if Rlt_dec a b then true else false.

(** The process-wide generator behind [random.random], [random.uniform],
    [random.gauss], [random.randint] and [random.choice].  Its algorithm is
    not part of the repository: a generator is any state type with the
    five draws, each returning the outcome and the next state.
    [gen_randbelow n] is the position [random.choice] picks in a sequence
    of [n] items. *)
Record Generator := {
  rng : Type;
  gen_random : rng -> R * rng;
  gen_uniform : R -> R -> rng -> R * rng;
  gen_gauss : R -> R -> rng -> R * rng;
  gen_randint : Z -> Z -> rng -> Z * rng;
  gen_randbelow : nat -> rng -> nat * rng
}.

(** What [random] promises about integer draws. *)
Record Lawful (gen : Generator) : Prop := {
  randint_in_range : forall a b g,
    (a <= b)%Z -> (a <= fst (gen_randint gen a b g) <= b)%Z;
  randbelow_in_range : forall n g,
    (0 < n)%nat -> (fst (gen_randbelow gen n g) < n)%nat
}.

Section Rand.
Context {gen : Generator}.

(** Computations that draw from the generator and may raise. *)
Definition Rand (A : Type) : Type := rng gen -> result A * rng gen.

Definition ret {A} (a : A) : Rand A := fun g => (Ok a, g).

Definition bind {A B} (m : Rand A) (k : A -> Rand B) : Rand B :=
  fun g => match m g with
           | (Ok a, g') => k a g'
           | (Raise e, g') => (Raise e, g')
           end.

Definition lift {A} (draw : rng gen -> A * rng gen) : Rand A :=
  fun g => let (a, g') := draw g in (Ok a, g').

Definition random : Rand R := lift (gen_random gen).
Definition uniform (a b : R) : Rand R := lift (gen_uniform gen a b).
Definition gauss (mu sigma : R) : Rand R := lift (gen_gauss gen mu sigma).

(** [random.randint a b] raises [ValueError] on an empty range. *)
Definition randint (a b : Z) : Rand Z :=
  fun g => if (b <? a)%Z then (Raise ValueError, g)
           else lift (gen_randint gen a b) g.

(** [random.choice seq] raises [IndexError] on an empty sequence.  The
    default of [nth] is only reached by a generator that is not lawful. *)
Definition choice {A} (seq : list A) : Rand A :=
  fun g => match seq with
           | [] => (Raise IndexError, g)
           | d :: _ =>
               let (i, g') := gen_randbelow gen (List.length seq) g in
               (Ok (nth i seq d), g')
           end.

(** [[m () for _ in range(n)]]. *)
Fixpoint repeatM {A} (n : nat) (m : Rand A) : Rand (list A) :=
  match n with
  | O => ret []
  | S n' => bind m (fun a => bind (repeatM n' m) (fun l => ret (a :: l)))
  end.

(** A [for] loop that rewrites the items of a list one after the other. *)
Fixpoint mapM {A B} (f : A -> Rand B) (l : list A) : Rand (list B) :=
  match l with
  | [] => ret []
  | a :: l' => bind (f a) (fun b => bind (mapM f l') (fun bs => ret (b :: bs)))
  end.

End Rand.
Arguments Rand : clear implicits.

(** Slice bounds as [list] resolves them: a negative index counts from the
    end, and the result is clamped to [[0, len]]. *)
Definition slice_index (len : nat) (i : Z) : nat :=
  let i' := if (i <? 0)%Z then (i + Z.of_nat len)%Z else i in
  Z.to_nat (Z.min (Z.max i' 0) (Z.of_nat len)).

(** [l[a:b]]. *)
Definition slice {A} (l : list A) (a b : Z) : list A :=
  let start := slice_index (List.length l) a in
  let stop := slice_index (List.length l) b in
  firstn (stop - start) (skipn start l).

(** [l[a:b] = v]. *)
Definition slice_assign {A} (l : list A) (a b : Z) (v : list A) : list A :=
  let start := slice_index (List.length l) a in
  let stop := Nat.max start (slice_index (List.length l) b) in
  firstn start l ++ v ++ skipn stop l.

End Py.

(** ** optimizer.py *)

Module Optimizer.
Import Py.

(** A node [[lat, lon, depth, active, type]]; type 0 is a sensor node (SN),
    type 1 a gateway buoy (BG). *)
Record Node := {
  lat : R;
  lon : R;
  depth : R;
  active : Z;
  node_type : Z
}.

(** [creator.Individual]: a list of nodes. *)
Definition Individual : Type := list Node.

(** The keys of a point of interest the optimizer reads. *)
Record Poi := {
  poi_id : Z;
  poi_lat : R;
  poi_lon : R;
  coverage_radius_m : R
}.

(** The attributes [__init__] sets, and the settings module in force. *)
Record NetworkOptimizer := {
  config : Config.t;
  pois : list Poi;
  bathymetry : list (list R);
  center_lat : R;
  center_lon : R;
  area_radius_km : R;
  pop_size : Z;
  n_gen : Z;
  mut_rate : R;
  cx_rate : R;
  max_sns : Z;
  max_bgs : Z;
  max_range_m : R
}.

(** [NetworkOptimizer.__init__]: copies its arguments and the NSGA-II
    settings and derives the communication range.  No statement of the
    body raises. *)
Definition __init__ (cfg : Config.t) (pois : list Poi)
  (bathymetry : list (list R)) (center_lat center_lon area_radius_km : R)
  : result NetworkOptimizer :=
  let nsga2 := Config.NSGA2_PARAMS cfg in
  let acoustic := Config.ACOUSTIC_MODEL cfg in
  Ok {| config := cfg;
        pois := pois;
        bathymetry := bathymetry;
        center_lat := center_lat;
        center_lon := center_lon;
        area_radius_km := area_radius_km;
        pop_size := Config.population_size nsga2;
        n_gen := Config.generations nsga2;
        mut_rate := Config.mutation_rate nsga2;
        cx_rate := Config.crossover_rate nsga2;
        max_sns := Config.max_sensor_nodes nsga2;
        max_bgs := Config.max_gateway_buoys nsga2;
        max_range_m :=
          Models.max_communication_range
            (Config.min_snr_db acoustic)
            (Config.source_level_db acoustic)
            (Config.noise_level_db acoustic)
            (Config.frequency_khz acoustic) |}.

(** Kilometres to degrees, as [_create_individual] and [_mutate] do. *)
Definition lat_range (self : NetworkOptimizer) : R :=
  area_radius_km self / Config.LAT_KM_PER_DEGREE (config self).

Definition lon_range (self : NetworkOptimizer) : R :=
  area_radius_km self /
  (Config.LAT_KM_PER_DEGREE (config self)
   * cos (Models.radians (Rabs (center_lat self)))).

(** Great-circle distance between two nodes. *)
Definition node_distance (u v : Node) : R :=
  Models.haversine_distance (lat u) (lon u) (lat v) (lon v).

(** *** Fitness *)

Definition is_active_sn (node : Node) : bool :=
  (node_type node =? 0)%Z && (active node =? 1)%Z.

Definition is_active_bg (node : Node) : bool :=
  (node_type node =? 1)%Z && (active node =? 1)%Z.

(** [networkx.Graph] over list positions: nodes and edges in insertion
    order. *)
Record Graph := {
  g_nodes : list nat;
  g_edges : list (nat * nat)
}.

(** An edge joins its two ends in both directions. *)
Definition adjacent (G : Graph) (i j : nat) : bool :=
  existsb (fun e => ((fst e =? i)%nat && (snd e =? j)%nat)
                    || ((fst e =? j)%nat && (snd e =? i)%nat))
          (g_edges G).

(** Is [j] reached from [i] along at most [k] edges. *)
Fixpoint walk (G : Graph) (k : nat) (i j : nat) : bool :=
  (i =? j)%nat
  || match k with
     | O => false
     | S k' => existsb (fun m => adjacent G i m && walk G k' m j) (g_nodes G)
     end.

(** [networkx.has_path]: a path between two nodes of the graph exists.  A
    path that exists has one that repeats no node, so as many edges as the
    graph has nodes are enough. *)
Definition has_path (G : Graph) (source target : nat) : bool :=
  walk G (List.length (g_nodes G)) source target.

(** The graph [_check_connectivity] builds: one node per position of
    [all_nodes], one edge per pair [i < j] within communication range. *)
Definition build_graph (self : NetworkOptimizer) (all_nodes : list Node)
  (null : Node) : Graph :=
  let n := List.length all_nodes in
  {| g_nodes := seq 0 n;
     g_edges :=
       flat_map
         (fun i =>
            flat_map
              (fun j =>
                 let distance :=
                   node_distance (nth i all_nodes null) (nth j all_nodes null) in
                 if Rle_bool distance (max_range_m self) then [(i, j)] else [])
              (seq (i + 1) (n - (i + 1))))
         (seq 0 n) |}.

Definition enumerate {A} (l : list A) : list (nat * A) :=
  combine (seq 0 (List.length l)) l.

(** [_check_connectivity]. *)
Definition _check_connectivity (self : NetworkOptimizer)
  (active_sns active_bgs : list Node) : bool :=
  match active_bgs with
  | [] => false
  | null :: _ =>
      let all_nodes := active_sns ++ active_bgs in
      let G := build_graph self all_nodes null in
      let bg_indices :=
        map fst (filter (fun p => (node_type (snd p) =? 1)%Z)
                        (enumerate all_nodes)) in
      match bg_indices with
      | [] => false
      | _ :: _ =>
          forallb
            (fun sn_idx => existsb (fun bg_idx => has_path G sn_idx bg_idx)
                                   bg_indices)
            (seq 0 (List.length active_sns))
      end
  end.

(** The [covered_pois] set after the loop over the points of interest. *)
Definition covered_pois (self : NetworkOptimizer) (active_sns : list Node)
  : set Z :=
  fold_left
    (fun covered poi =>
       if existsb
            (fun node =>
               Rle_bool
                 (Models.haversine_distance
                    (poi_lat poi) (poi_lon poi) (lat node) (lon node))
                 (coverage_radius_m poi))
            active_sns
       then set_add Z.eq_dec (poi_id poi) covered
       else covered)
    (pois self) (empty_set Z).

(** [_evaluate]: the pair (cost, coverage). *)
Definition _evaluate (self : NetworkOptimizer) (individual : Individual)
  : result (R * R) :=
  let active_sns := filter is_active_sn individual in
  let active_bgs := filter is_active_bg individual in
  let num_sns := List.length active_sns in
  let num_bgs := List.length active_bgs in
  if (num_sns =? 0)%nat || (num_bgs =? 0)%nat then Ok (1000000, 0)
  else
    let costs := Config.RELATIVE_COSTS (config self) in
    let cost :=
      (Z.of_nat num_sns * Config.sensor_node costs
       + Z.of_nat num_bgs * Config.gateway_buoy costs)%Z in
    let covered := covered_pois self active_sns in
    match truediv (Z.of_nat (List.length covered))
                  (Z.of_nat (List.length (pois self))) with
    | Raise e => Raise e
    | Ok ratio =>
        let coverage_pct := ratio * 100 in
        if negb (_check_connectivity self active_sns active_bgs)
        then Ok (IZR (cost * 10), coverage_pct * 0.1)
        else Ok (IZR cost, coverage_pct)
    end.

(** *** Random construction and genetic operators *)

Section Operators.
Context {gen : Generator}.

Local Notation "x <- m ;; k" := (bind m (fun x => k))
  (at level 61, m at next level, right associativity).

(** One sensor node of [_create_individual]. *)
Definition create_sensor (self : NetworkOptimizer) : Rand gen Node :=
  angle <- uniform 0 (2 * PI) ;;
  r <- uniform 0.1 0.9 ;;
  let lat := center_lat self + r * lat_range self * sin angle in
  let lon := center_lon self + r * lon_range self * cos angle in
  depth <- uniform (Config.depth_min (Config.BATHYMETRY (config self)))
                   (Config.depth_max (Config.BATHYMETRY (config self))) ;;
  active <- choice [0%Z; 1%Z] ;;
  let node_type := 0%Z in
  ret {| lat := lat; lon := lon; depth := depth;
         active := active; node_type := node_type |}.

(** One gateway buoy of [_create_individual]. *)
Definition create_gateway (self : NetworkOptimizer) : Rand gen Node :=
  angle <- uniform 0 (2 * PI) ;;
  r <- uniform 0.3 0.8 ;;
  let lat := center_lat self + r * lat_range self * sin angle in
  let lon := center_lon self + r * lon_range self * cos angle in
  let depth := 0 in
  active <- choice [0%Z; 1%Z] ;;
  let node_type := 1%Z in
  ret {| lat := lat; lon := lon; depth := depth;
         active := active; node_type := node_type |}.

(** [_create_individual]: [max_sns] sensor nodes, then [max_bgs] buoys. *)
Definition _create_individual (self : NetworkOptimizer)
  : Rand gen Individual :=
  sensors <- repeatM (Z.to_nat (max_sns self)) (create_sensor self) ;;
  gateways <- repeatM (Z.to_nat (max_bgs self)) (create_gateway self) ;;
  ret (sensors ++ gateways).

(** The exchange of [_crossover] once the two cut points are drawn.  The
    two individuals are distinct lists (the caller clones them). *)
Definition crossover_at (cx_point1 cx_point2 : Z) (ind1 ind2 : Individual)
  : Individual * Individual :=
  let '(cx_point1, cx_point2) :=
    if (cx_point1 >? cx_point2)%Z then (cx_point2, cx_point1)
    else (cx_point1, cx_point2) in
  let from2 := slice ind2 cx_point1 cx_point2 in
  let from1 := slice ind1 cx_point1 cx_point2 in
  (slice_assign ind1 cx_point1 cx_point2 from2,
   slice_assign ind2 cx_point1 cx_point2 from1).

(** [_crossover]: two-point crossover. *)
Definition _crossover (ind1 ind2 : Individual)
  : Rand gen (Individual * Individual) :=
  let size := Z.of_nat (List.length ind1) in
  cx_point1 <- randint 1 (size - 1) ;;
  cx_point2 <- randint 1 (size - 1) ;;
  ret (crossover_at cx_point1 cx_point2 ind1 ind2).

(** The body of the loop of [_mutate] for the node at one position. *)
Definition mutate_node (self : NetworkOptimizer) (node : Node)
  : Rand gen Node :=
  u <- random ;;
  if Rlt_bool u (mut_rate self) then
    mutation_type <- choice ["position"%string; "activation"%string] ;;
    if String.eqb mutation_type "position" then
      d_lat <- gauss 0 (lat_range self * 0.1) ;;
      d_lon <- gauss 0 (lon_range self * 0.1) ;;
      ret {| lat := clip (lat node + d_lat)
                         (center_lat self - lat_range self)
                         (center_lat self + lat_range self);
             lon := clip (lon node + d_lon)
                         (center_lon self - lon_range self)
                         (center_lon self + lon_range self);
             depth := depth node;
             active := active node;
             node_type := node_type node |}
    else
      ret {| lat := lat node; lon := lon node; depth := depth node;
             active := (1 - active node)%Z;
             node_type := node_type node |}
  else ret node.

(** [_mutate]: the nodes are visited in order, each rewritten in place. *)
Definition _mutate (self : NetworkOptimizer) (individual : Individual)
  : Rand gen Individual :=
  mapM (mutate_node self) individual.

(** *** The run *)

(** One line of the logbook: generation, evaluations, and the four
    statistics of the two objectives. *)
Record GenerationStats := {
  stat_gen : Z;
  stat_nevals : Z;
  stat_avg : R * R;
  stat_std : R * R;
  stat_min : R * R;
  stat_max : R * R
}.

Definition Logbook : Type := list GenerationStats.

(** [tools.ParetoFront]: the kept individuals with their fitness. *)
Definition ParetoFront : Type := list (Individual * (R * R)).

(** The operators [_setup_deap] registers. *)
Record Toolbox := {
  tb_individual : Rand gen Individual;
  tb_evaluate : Individual -> result (R * R);
  tb_mate : Individual -> Individual -> Rand gen (Individual * Individual);
  tb_mutate : Individual -> Rand gen Individual
}.

Definition _setup_deap (self : NetworkOptimizer) : Toolbox := {|
  tb_individual := _create_individual self;
  tb_evaluate := _evaluate self;
  tb_mate := _crossover;
  tb_mutate := _mutate self
|}.

(** [toolbox.population(n)]: [n] individuals, one after the other. *)
Definition population (toolbox : Toolbox) (n : Z)
  : Rand gen (list Individual) :=
  repeatM (Z.to_nat n) (tb_individual toolbox).

(** What a run hands back, with the population it started from. *)
Record RunResult := {
  initial_population : list Individual;
  hof : ParetoFront;
  logbook : Logbook
}.

(** [algorithms.eaMuPlusLambda] with NSGA-II selection, the statistics and
    the hall of fame of [run]: library code, taken as given.  It draws
    from the same generator as the operators and returns the final
    population, the logbook and the hall of fame. *)
Definition EaMuPlusLambda : Type :=
  Toolbox -> list Individual ->
  forall (mu lambda_ : Z) (cxpb mutpb : R) (ngen : Z),
  Rand gen (list Individual * Logbook * ParetoFront).

(** [NetworkOptimizer.run]. *)
Definition run (eaMuPlusLambda : EaMuPlusLambda) (self : NetworkOptimizer)
  : Rand gen RunResult :=
  let toolbox := _setup_deap self in
  pop <- population toolbox (pop_size self) ;;
  out <- eaMuPlusLambda toolbox pop (pop_size self) (pop_size self)
           (cx_rate self) (mut_rate self) (n_gen self) ;;
  let '(_, logbook, hof) := out in
  ret {| initial_population := pop; hof := hof; logbook := logbook |}.

End Operators.

End Optimizer.

(** ** Notions the properties are stated with *)

Module Notions.
Import Py Optimizer.

(** The configurations the design calls invalid: a population size that is
    not positive, no point of interest, bathymetric bounds the wrong way
    round, or a node count that is not positive. *)
Definition invalid_configuration (cfg : Config.t) (pois : list Poi) : Prop :=
  (Config.population_size (Config.NSGA2_PARAMS cfg) <= 0)%Z
  \/ pois = []
  \/ Config.depth_max (Config.BATHYMETRY cfg)
     < Config.depth_min (Config.BATHYMETRY cfg)
  \/ (Config.max_sensor_nodes (Config.NSGA2_PARAMS cfg) <= 0)%Z
  \/ (Config.max_gateway_buoys (Config.NSGA2_PARAMS cfg) <= 0)%Z.

(** Two nodes can talk to each other directly. *)
Definition in_range (self : NetworkOptimizer) (u v : Node) : Prop :=
  node_distance u v <= max_range_m self.

(** [linked self nodes i j]: positions [i] and [j] of [nodes] are joined by
    a path of the undirected graph whose edges are the pairs of distinct
    positions holding nodes within range of each other. *)
Inductive linked (self : NetworkOptimizer) (nodes : list Node)
  : nat -> nat -> Prop :=
  | linked_here (i : nat) : linked self nodes i i
  | linked_hop (i m j : nat) (u v : Node) :
      i <> m ->
      nth_error nodes i = Some u ->
      nth_error nodes m = Some v ->
      in_range self u v ->
      linked self nodes m j ->
      linked self nodes i j.

(** [chain E i p j]: stepping along the relation [E] from [i] through the
    positions of [p] in turn ends in [j]. *)
Fixpoint chain (E : nat -> nat -> Prop) (i : nat) (p : list nat) (j : nat)
  : Prop :=
  match p with
  | [] => i = j
  | m :: p' => E i m /\ chain E m p' j
  end.

(** Feasibility in the words of the design: some gateway is active and
    every active sensor has a path to an active gateway.  Sensors occupy
    the first positions of [active_sns ++ active_bgs], gateways the rest. *)
Definition feasible (self : NetworkOptimizer)
  (active_sns active_bgs : list Node) : Prop :=
  active_bgs <> []
  /\ forall s, (s < List.length active_sns)%nat ->
       exists b, (b < List.length active_bgs)%nat
                 /\ linked self (active_sns ++ active_bgs)
                      s (List.length active_sns + b).

End Notions.

(** ** Sample data *)

Module Samples.
Import Py Optimizer.

Definition sensor_on : Node :=
  {| lat := 0; lon := 0; depth := 10; active := 1; node_type := 0 |}.

Definition sensor_off : Node :=
  {| lat := 0; lon := 0; depth := 10; active := 0; node_type := 0 |}.

Definition gateway_on : Node :=
  {| lat := 0; lon := 0; depth := 0; active := 1; node_type := 1 |}.

Definition gateway_off : Node :=
  {| lat := 0; lon := 0; depth := 0; active := 0; node_type := 1 |}.

Definition poi_center : Poi :=
  {| poi_id := 1; poi_lat := 0; poi_lon := 0; coverage_radius_m := 200 |}.

(** An optimizer under the shipped settings, with a 1 km range. *)
Definition optimizer_with (pois : list Poi) : NetworkOptimizer :=
  {| config := Config.shipped;
     pois := pois;
     bathymetry := [];
     center_lat := 0;
     center_lon := 0;
     area_radius_km := 1;
     pop_size := 160;
     n_gen := 320;
     mut_rate := 0.22;
     cx_rate := 0.88;
     max_sns := 25;
     max_bgs := 6;
     max_range_m := 1000 |}.

(** Settings that are wrong in every way the design lists. *)
Definition broken_config : Config.t := {|
  Config.BATHYMETRY := {| Config.depth_min := 25; Config.depth_max := 8;
                          Config.depth_mean := 20.15;
                          Config.depth_std := 4.20 |};
  Config.ACOUSTIC_MODEL := Config.ACOUSTIC_MODEL Config.shipped;
  Config.NSGA2_PARAMS := {| Config.population_size := 0;
                            Config.generations := 320;
                            Config.mutation_rate := 0.22;
                            Config.crossover_rate := 0.88;
                            Config.max_sensor_nodes := 0;
                            Config.max_gateway_buoys := -1;
                            Config.tournament_size := 3 |};
  Config.RELATIVE_COSTS := Config.RELATIVE_COSTS Config.shipped;
  Config.LAT_KM_PER_DEGREE := 111
|}.

(** A generator that always answers with the low end of the range, and
    counts its draws. *)
Definition low_generator : Generator := {|
  rng := nat;
  gen_random := fun g => (0, S g);
  gen_uniform := fun a _ g => (a, S g);
  gen_gauss := fun mu _ g => (mu, S g);
  gen_randint := fun a _ g => (a, S g);
  gen_randbelow := fun _ g => (0%nat, S g)
|}.

End Samples.

(** ** models.py, continued: channel capacity, decibels and costs *)

Module Economics.

(** [numpy.log2] on the positive reals. *)
Definition log2 (x : R) : R := ln x / ln 2.

(** [shannon_capacity], in bits per second. *)
Definition shannon_capacity (bandwidth_hz snr_linear : R) : R :=
  let capacity := bandwidth_hz * log2 (1 + snr_linear) in
  capacity.

(** [db_to_linear]: [10 ** (db / 10)]. *)
Definition db_to_linear (db : R) : R := Rpower 10 (db / 10).

(** [linear_to_db]. *)
Definition linear_to_db (linear : R) : R := 10 * Models.log10 linear.

(** [config.EQUIPMENT_COSTS], in USD. *)
Record EquipmentCosts := {
  cost_sensor_node : Z;
  cost_gateway_buoy : Z;
  cost_coastal_station : Z
}.

(** [config.OPEX_RATES]: yearly share of the purchase price, and the fixed
    yearly cost of the coastal station. *)
Record OpexRates := {
  rate_sensor_node : R;
  rate_gateway_buoy : R;
  coastal_station_annual : Z
}.

Definition EQUIPMENT_COSTS : EquipmentCosts :=
  {| cost_sensor_node := 8500; cost_gateway_buoy := 42500;
     cost_coastal_station := 125000 |}.

Definition OPEX_RATES : OpexRates :=
  {| rate_sensor_node := 0.15; rate_gateway_buoy := 0.20;
     coastal_station_annual := 42000 |}.

(** The dictionary [calculate_capex] returns. *)
Record Capex := {
  capex_sensor_nodes : Z;
  capex_gateway_buoys : Z;
  capex_coastal_stations : Z;
  total_capex : Z
}.

(** [calculate_capex]. *)
Definition calculate_capex (costs : EquipmentCosts)
  (num_sns num_bgs num_ecs : Z) : Capex :=
  let cost_sns := (num_sns * cost_sensor_node costs)%Z in
  let cost_bgs := (num_bgs * cost_gateway_buoy costs)%Z in
  let cost_ecs := (num_ecs * cost_coastal_station costs)%Z in
  let total_capex := (cost_sns + cost_bgs + cost_ecs)%Z in
  {| capex_sensor_nodes := cost_sns;
     capex_gateway_buoys := cost_bgs;
     capex_coastal_stations := cost_ecs;
     total_capex := total_capex |}.

(** The dictionary [calculate_opex_annual] returns. *)
Record Opex := {
  opex_sensor_nodes : R;
  opex_gateway_buoys : R;
  opex_coastal_station : Z;
  total_opex_annual : R
}.

(** [calculate_opex_annual]. *)
Definition calculate_opex_annual (costs : EquipmentCosts) (rates : OpexRates)
  (num_sns num_bgs : Z) : Opex :=
  let opex_sns :=
    IZR (num_sns * cost_sensor_node costs) * rate_sensor_node rates in
  let opex_bgs :=
    IZR (num_bgs * cost_gateway_buoy costs) * rate_gateway_buoy rates in
  let opex_ec := coastal_station_annual rates in
  let total_opex := opex_sns + opex_bgs + IZR opex_ec in
  {| opex_sensor_nodes := opex_sns;
     opex_gateway_buoys := opex_bgs;
     opex_coastal_station := opex_ec;
     total_opex_annual := total_opex |}.

(** The dictionary [calculate_tco] returns. *)
Record Tco := {
  tco_capex : Z;
  tco_opex_total : R;
  tco : R;
  tco_years : Z
}.

(** [calculate_tco]: one coastal station, [years] years of operation. *)
Definition calculate_tco (costs : EquipmentCosts) (rates : OpexRates)
  (num_sns num_bgs years : Z) : Tco :=
  let capex := calculate_capex costs num_sns num_bgs 1 in
  let opex_annual := calculate_opex_annual costs rates num_sns num_bgs in
  let tco := IZR (total_capex capex) + total_opex_annual opex_annual * IZR years in
  {| tco_capex := total_capex capex;
     tco_opex_total := total_opex_annual opex_annual * IZR years;
     tco := tco;
     tco_years := years |}.

End Economics.

(** ** optimizer.py, continued: reading a solution, and the notions the
    further properties are stated with *)

Module Solutions.
Import Py Optimizer.

(** A float that may be [float('inf')]. *)
Inductive ext_float : Type :=
  | Finite (x : R)
  | Infinity.

(** The dictionary [extract_solution] returns. *)
Record Solution := {
  num_sns : Z;
  num_bgs : Z;
  sensor_nodes : list Node;
  gateway_buoys : list Node;
  relative_cost : R;
  coverage_pct : R;
  capex_usd : Z;
  tco_5y_usd : R;
  cost_per_coverage : ext_float
}.

(** [extract_solution] on an evaluated individual: [fitness_values] is its
    [fitness.values], the pair (cost, coverage). *)
Definition extract_solution (costs : Economics.EquipmentCosts)
  (rates : Economics.OpexRates) (individual : Individual)
  (fitness_values : R * R) : Solution :=
  let active_sns := filter is_active_sn individual in
  let active_bgs := filter is_active_bg individual in
  let num_sns := Z.of_nat (List.length active_sns) in
  let num_bgs := Z.of_nat (List.length active_bgs) in
  let '(cost, coverage) := fitness_values in
  let capex_info := Economics.calculate_capex costs num_sns num_bgs 1 in
  let tco_info := Economics.calculate_tco costs rates num_sns num_bgs 5 in
  {| num_sns := num_sns;
     num_bgs := num_bgs;
     sensor_nodes := active_sns;
     gateway_buoys := active_bgs;
     relative_cost := cost;
     coverage_pct := coverage;
     capex_usd := Economics.total_capex capex_info;
     tco_5y_usd := Economics.tco tco_info;
     cost_per_coverage :=
       if Rlt_bool 0 coverage
       then Finite (IZR (Economics.total_capex capex_info) / coverage)
       else Infinity |}.

(** What [random] promises about real draws: [random()] lies in [[0, 1)]
    and [uniform(a, b)] between [a] and [b], whichever is larger. *)
Record LawfulReals (gen : Generator) : Prop := {
  random_in_unit : forall g, 0 <= fst (gen_random gen g) < 1;
  uniform_between : forall a b g,
    Rmin a b <= fst (gen_uniform gen a b g) <= Rmax a b
}.

(** The test of the inner loop of [_evaluate]: some active sensor lies
    within the coverage radius of the point of interest. *)
Definition within_reach (active_sns : list Node) (poi : Poi) : bool :=
  existsb
    (fun node =>
       Rle_bool
         (Models.haversine_distance
            (poi_lat poi) (poi_lon poi) (lat node) (lon node))
         (coverage_radius_m poi))
    active_sns.

(** A node moved to another depth. *)
Definition at_depth (new_depth : Node -> R) (node : Node) : Node :=
  {| lat := lat node; lon := lon node; depth := new_depth node;
     active := active node; node_type := node_type node |}.

(** The activation flag is a bit. *)
Definition binary_flag (node : Node) : Prop :=
  active node = 0%Z \/ active node = 1%Z.

(** The node lies in the rectangle [_mutate] clips to. *)
Definition in_bounding_box (self : NetworkOptimizer) (node : Node) : Prop :=
  center_lat self - lat_range self <= lat node <= center_lat self + lat_range self
  /\ center_lon self - lon_range self <= lon node
     <= center_lon self + lon_range self.

(** What one round of the loop can do to a node. *)
Definition mutated (self : NetworkOptimizer) (node node' : Node) : Prop :=
  depth node' = depth node /\ node_type node' = node_type node
  /\ (node' = node
      \/ (active node' = (1 - active node)%Z
          /\ lat node' = lat node /\ lon node' = lon node)
      \/ (active node' = active node
          /\ (0 <= lat_range self -> 0 <= lon_range self ->
              in_bounding_box self node'))).

(** [splice l1 l2 s e]: [l1] with its positions from [s] up to [e]
    (excluded) taken from [l2]. *)
Definition splice {A} (l1 l2 : list A) (s e : nat) : list A :=
  firstn s l1 ++ firstn (e - s) (skipn s l2) ++ skipn e l1.

(** The window of positions two cut points exchange in lists of length
    [n]. *)
Definition window_start (n : nat) (cx_point1 cx_point2 : Z) : nat :=
  slice_index n (Z.min cx_point1 cx_point2).

Definition window_stop (n : nat) (cx_point1 cx_point2 : Z) : nat :=
  Nat.max (window_start n cx_point1 cx_point2)
          (slice_index n (Z.max cx_point1 cx_point2)).

Definition exchanged (n : nat) (cx_point1 cx_point2 : Z) (k : nat) : bool :=
  (window_start n cx_point1 cx_point2 <=? k)%nat
  && (k <? window_stop n cx_point1 cx_point2)%nat.

End Solutions.

(** ** More sample data *)

Module MoreSamples.
Import Py Optimizer.

(** The sample optimizer with another mutation rate. *)
Definition optimizer_at_rate (rate : R) : NetworkOptimizer :=
  {| config := Config.shipped;
     pois := [Samples.poi_center];
     bathymetry := [];
     center_lat := 0;
     center_lon := 0;
     area_radius_km := 1;
     pop_size := 160;
     n_gen := 320;
     mut_rate := rate;
     cx_rate := 0.88;
     max_sns := 25;
     max_bgs := 6;
     max_range_m := 1000 |}.

(** The sample optimizer with another communication range. *)
Definition optimizer_at_range (range_m : R) : NetworkOptimizer :=
  {| config := Config.shipped;
     pois := [Samples.poi_center];
     bathymetry := [];
     center_lat := 0;
     center_lon := 0;
     area_radius_km := 1;
     pop_size := 160;
     n_gen := 320;
     mut_rate := 0.22;
     cx_rate := 0.88;
     max_sns := 25;
     max_bgs := 6;
     max_range_m := range_m |}.

(** An active gateway buoy on the far side of the Earth. *)
Definition gateway_far : Node :=
  {| lat := 0; lon := 180; depth := 0; active := 1; node_type := 1 |}.

End MoreSamples.

(** ** generate_web_data.py: the Pareto front of a simulated population *)

Module WebData.
Import Py.

(** [q] dominates [p]: no more costly, no less covering, and better in one
    of the two.  A point is a pair [[cost, coverage]]. *)
Definition dominates (q p : R * R) : bool :=
  Rle_bool (fst q) (fst p) && Rle_bool (snd p) (snd q)
  && (Rlt_bool (fst q) (fst p) || Rlt_bool (snd p) (snd q)).

(** The points of [population] no point of [population] dominates, in the
    order of [population]. *)
Definition pareto_gen (population : list (R * R)) : list (R * R) :=
  filter (fun p => negb (existsb (fun q => dominates q p) population))
         population.

(** Cheaper first, and among equally cheap points the better covering. *)
Definition ahead (q p : R * R) : Prop :=
  fst q < fst p \/ (fst q = fst p /\ snd p < snd q).

End WebData.

(** * Properties of the acoustic link model *)

Module ModelsFacts.
Import Models.

Lemma ratio_increasing (c x1 x2 : R) :
  0 < c -> 0 <= x1 -> x1 < x2 -> x1 / (c + x1) < x2 / (c + x2).
Proof.
  intros Hc H1 H12.
  apply Rlt_0_minus.
  replace (x2 / (c + x2) - x1 / (c + x1))
    with (c * (x2 - x1) / ((c + x1) * (c + x2))) by (field; lra).
  apply Rdiv_lt_0_compat; nra.
Qed.

Lemma square_increasing (f1 f2 : R) : 0 < f1 -> f1 < f2 -> f1 ^ 2 < f2 ^ 2.
Proof. intros; nra. Qed.

(** C8: the Thorp absorption coefficient is strictly increasing on the
    positive frequencies: [0 < f1 < f2] gives
    [thorp_absorption_coefficient f1 < thorp_absorption_coefficient f2]. *)
Theorem thorp_strictly_increasing (f1 f2 : R) :
  0 < f1 -> f1 < f2 ->
  thorp_absorption_coefficient f1 < thorp_absorption_coefficient f2.
Proof.
  intros H1 H12.
  pose proof (square_increasing f1 f2 H1 H12) as Hsq.
  assert (H0 : 0 <= f1 ^ 2) by nra.
  pose proof (ratio_increasing 1 _ _ ltac:(lra) H0 Hsq) as Ha.
  pose proof (ratio_increasing 4100 _ _ ltac:(lra) H0 Hsq) as Hb.
  unfold thorp_absorption_coefficient; cbv zeta.
  replace (0.11 * f1 ^ 2 / (1 + f1 ^ 2))
    with (0.11 * (f1 ^ 2 / (1 + f1 ^ 2))) by (unfold Rdiv; ring).
  replace (0.11 * f2 ^ 2 / (1 + f2 ^ 2))
    with (0.11 * (f2 ^ 2 / (1 + f2 ^ 2))) by (unfold Rdiv; ring).
  replace (44 * f1 ^ 2 / (4100 + f1 ^ 2))
    with (44 * (f1 ^ 2 / (4100 + f1 ^ 2))) by (unfold Rdiv; ring).
  replace (44 * f2 ^ 2 / (4100 + f2 ^ 2))
    with (44 * (f2 ^ 2 / (4100 + f2 ^ 2))) by (unfold Rdiv; ring).
  lra.
Qed.

Lemma thorp_strictly_increasing_witness :
  0 < 10 /\ 10 < 20 /\
  thorp_absorption_coefficient 10 < thorp_absorption_coefficient 20.
Proof.
  split; [lra | split; [lra | apply (thorp_strictly_increasing 10 20); lra]].
Defined.

(** One round of the search cuts the interval in two and keeps it inside
    the interval it started from. *)
Lemma range_search_bounds (snr_at : R -> R) (min_snr_db : R) (n : nat) :
  forall low high fuel,
    low <= high ->
    high - low <= tolerance * 2 ^ n ->
    (n <= fuel)%nat ->
    exists r, range_search snr_at min_snr_db fuel low high = Some r
              /\ low <= r <= high.
Proof.
  induction n as [|n IH]; intros low high fuel Hle Hw Hfuel.
  - exists low. split; [|lra].
    destruct fuel; simpl; destruct (Rgt_dec (high - low) tolerance);
      try reflexivity; simpl in Hw; lra.
  - destruct fuel as [|fuel]; [lia|]. simpl.
    destruct (Rgt_dec (high - low) tolerance) as [Hgt|Hngt].
    + destruct (Rge_dec (snr_at ((low + high) / 2)) min_snr_db) as [Hge|Hlt].
      * destruct (IH ((low + high) / 2) high fuel) as (r & Hr & Hb);
          [lra | simpl in Hw; lra | lia |].
        exists r. split; [exact Hr | lra].
      * destruct (IH low ((low + high) / 2) fuel) as (r & Hr & Hb);
          [lra | simpl in Hw; lra | lia |].
        exists r. split; [exact Hr | lra].
    + exists low. split; [reflexivity | lra].
Qed.

Lemma range_search_exits (snr_at : R -> R) (min_snr_db : R) (k : nat) :
  exists r, range_search snr_at min_snr_db (search_iterations + k) 1 10000
            = Some r /\ 1 <= r <= 10000.
Proof.
  apply (range_search_bounds snr_at min_snr_db search_iterations).
  - lra.
  - unfold tolerance, search_iterations. simpl. lra.
  - lia.
Qed.

Lemma range_search_result (m sl nl f : R) :
  1 <= max_communication_range m sl nl f <= 10000.
Proof.
  unfold max_communication_range, max_communication_range_within.
  destruct (range_search_exits
              (fun mid => calculate_snr mid sl nl f) m 0) as (r & Hr & Hb).
  rewrite Nat.add_0_r in Hr. rewrite Hr. exact Hb.
Qed.

(** C9: the binary search of [max_communication_range] terminates whatever
    the signal-to-noise curve is (monotone or not): every round halves the
    interval, so from [[1, 10000]] seventeen rounds bring its width under
    the 0.1 m tolerance, a larger iteration budget changes nothing, and
    the value returned lies in [[1, 10000]]. *)
Theorem max_range_search_terminates :
  (forall (snr_at : R -> R) (min_snr_db low high : R) (fuel : nat),
      tolerance < high - low ->
      exists low' high',
        range_search snr_at min_snr_db (S fuel) low high
        = range_search snr_at min_snr_db fuel low' high'
        /\ high' - low' = (high - low) / 2
        /\ low <= low' /\ high' <= high)
  /\ (10000 - 1) / 2 ^ search_iterations <= tolerance
  /\ (forall (snr_at : R -> R) (min_snr_db : R) (k : nat),
        exists r,
          range_search snr_at min_snr_db (search_iterations + k) 1 10000
          = Some r
          /\ 1 <= r <= 10000)
  /\ (forall min_snr_db source_level_db noise_level_db frequency_khz,
        max_communication_range_within search_iterations
          min_snr_db source_level_db noise_level_db frequency_khz
        = Some (max_communication_range
                  min_snr_db source_level_db noise_level_db frequency_khz)
        /\ 1 <= max_communication_range
                  min_snr_db source_level_db noise_level_db frequency_khz
             <= 10000).
Proof.
  split.
  { intros snr_at m low high fuel Hw. cbn [range_search].
    destruct (Rgt_dec (high - low) tolerance) as [_|Hn]; [|lra].
    unfold tolerance in Hw.
    destruct (Rge_dec (snr_at ((low + high) / 2)) m).
    - exists ((low + high) / 2), high. repeat split; lra.
    - exists low, ((low + high) / 2). repeat split; lra. }
  split; [unfold tolerance, search_iterations; simpl; lra|].
  split; [intros; apply range_search_exits|].
  intros m sl nl f.
  unfold max_communication_range, max_communication_range_within.
  destruct (range_search_exits
              (fun mid => calculate_snr mid sl nl f) m 0) as (r & Hr & Hb).
  rewrite Nat.add_0_r in Hr. rewrite Hr. split; [reflexivity | exact Hb].
Qed.

End ModelsFacts.

(** * Properties of the optimizer *)

Module OptimizerFacts.
Import Py Optimizer Notions.

(** ** Construction *)

(** C2 (as amended): construction validates nothing.  Whatever the
    settings and the points of interest, invalid ones included,
    [__init__] raises no error and returns an optimizer that holds the
    given points of interest and the population size, generation count,
    rates and node counts of the settings unchanged. *)
Theorem init_never_rejects (cfg : Config.t) (ps : list Poi)
  (bathy : list (list R)) (clat clon radius : R) :
  exists self,
    __init__ cfg ps bathy clat clon radius = Ok self
    /\ config self = cfg
    /\ pois self = ps
    /\ pop_size self = Config.population_size (Config.NSGA2_PARAMS cfg)
    /\ n_gen self = Config.generations (Config.NSGA2_PARAMS cfg)
    /\ max_sns self = Config.max_sensor_nodes (Config.NSGA2_PARAMS cfg)
    /\ max_bgs self = Config.max_gateway_buoys (Config.NSGA2_PARAMS cfg)
    /\ 1 <= max_range_m self <= 10000.
Proof.
  eexists. split; [reflexivity|]. cbn.
  repeat (split; [reflexivity|]).
  apply ModelsFacts.range_search_result.
Qed.

(** C2 (as stated) fails: with a population size of 0, no point of
    interest, depth bounds the wrong way round and node counts 0 and -1,
    construction still succeeds. *)
Lemma init_accepts_broken_config :
  invalid_configuration Samples.broken_config []
  /\ (Config.population_size (Config.NSGA2_PARAMS Samples.broken_config) <= 0)%Z
  /\ Config.depth_max (Config.BATHYMETRY Samples.broken_config)
     < Config.depth_min (Config.BATHYMETRY Samples.broken_config)
  /\ ~ (exists e, __init__ Samples.broken_config [] [] 0 0 1 = Raise e).
Proof.
  split; [left; cbn; lia|].
  split; [cbn; lia|].
  split; [cbn; lra|].
  intros [e He]. discriminate He.
Qed.

(** ** Fitness *)

Lemma of_nat_zero_iff (n : nat) : (Z.of_nat n =? 0)%Z = (n =? 0)%nat.
Proof. destruct n; reflexivity. Qed.

Lemma evaluate_penalty (self : NetworkOptimizer) (ind : Individual) :
  List.length (filter is_active_sn ind) = 0%nat
  \/ List.length (filter is_active_bg ind) = 0%nat ->
  _evaluate self ind = Ok (1000000, 0).
Proof.
  intros [H|H]; unfold _evaluate; rewrite H; cbn.
  - reflexivity.
  - rewrite orb_true_r. reflexivity.
Qed.

(** C4: an individual with no active sensor, or with no active gateway,
    is given exactly the penalty pair (1e6, 0.0). *)
Theorem evaluate_degenerate (self : NetworkOptimizer) (ind : Individual) :
  List.length (filter is_active_sn ind) = 0%nat
  \/ List.length (filter is_active_bg ind) = 0%nat ->
  _evaluate self ind = Ok (1000000, 0).
Proof. exact (evaluate_penalty self ind). Qed.

Lemma evaluate_degenerate_witness :
  (List.length (filter is_active_sn [Samples.sensor_on; Samples.gateway_off])
   = 0%nat
   \/ List.length (filter is_active_bg [Samples.sensor_on; Samples.gateway_off])
      = 0%nat)
  /\ _evaluate (Samples.optimizer_with [Samples.poi_center])
       [Samples.sensor_on; Samples.gateway_off]
     = Ok (1000000, 0).
Proof.
  assert (H : List.length
                (filter is_active_sn [Samples.sensor_on; Samples.gateway_off])
              = 0%nat
              \/ List.length
                   (filter is_active_bg [Samples.sensor_on; Samples.gateway_off])
                 = 0%nat) by (right; reflexivity).
  split; [exact H | apply (evaluate_degenerate _ _ H)].
Defined.

(** The evaluator past the degenerate case, when some point of interest
    exists. *)
Lemma evaluate_regular (self : NetworkOptimizer) (ind : Individual) :
  let sns := filter is_active_sn ind in
  let bgs := filter is_active_bg ind in
  let costs := Config.RELATIVE_COSTS (config self) in
  let cost := INR (List.length sns) * IZR (Config.sensor_node costs)
              + INR (List.length bgs) * IZR (Config.gateway_buoy costs) in
  let coverage_pct :=
    INR (List.length (covered_pois self sns)) / INR (List.length (pois self))
    * 100 in
  (1 <= List.length sns)%nat ->
  (1 <= List.length bgs)%nat ->
  pois self <> [] ->
  _evaluate self ind
  = Ok (if _check_connectivity self sns bgs
        then (cost, coverage_pct)
        else (cost * 10, coverage_pct * 0.1)).
Proof.
  intros sns bgs costs cost coverage_pct Hs Hb Hp.
  unfold _evaluate. fold sns bgs costs.
  destruct (List.length sns) as [|ns] eqn:Es; [lia|].
  destruct (List.length bgs) as [|nb] eqn:Eb; [lia|].
  cbn [Nat.eqb orb].
  unfold truediv. rewrite of_nat_zero_iff.
  destruct (pois self) as [|p ps] eqn:Ep; [congruence|].
  cbn [List.length Nat.eqb].
  assert (Hcost : IZR (Z.of_nat (S ns) * Config.sensor_node costs
                       + Z.of_nat (S nb) * Config.gateway_buoy costs) = cost).
  { subst cost. rewrite plus_IZR, !mult_IZR, <- !INR_IZR_INZ.
    reflexivity. }
  assert (Hcov : IZR (Z.of_nat (List.length (covered_pois self sns)))
                 / IZR (Z.of_nat (S (List.length ps))) * 100 = coverage_pct).
  { subst coverage_pct. rewrite <- !INR_IZR_INZ. reflexivity. }
  destruct (_check_connectivity self sns bgs); cbn [negb].
  - rewrite Hcost, Hcov. reflexivity.
  - rewrite mult_IZR, Hcost, Hcov. reflexivity.
Qed.

(** Where there is at least one point of interest, the evaluator does
    what C6 says: for an individual with at least one active sensor and
    one active gateway the cost is the number of active sensors times
    the relative sensor cost plus the number of active gateways times the
    relative gateway cost, and the evaluator returns (cost, coverage) when
    the connectivity checker accepts the individual and exactly
    (cost * 10, coverage * 0.1) when it does not. *)
Theorem evaluate_cost_and_penalty (self : NetworkOptimizer) (ind : Individual) :
  let sns := filter is_active_sn ind in
  let bgs := filter is_active_bg ind in
  let costs := Config.RELATIVE_COSTS (config self) in
  let cost := INR (List.length sns) * IZR (Config.sensor_node costs)
              + INR (List.length bgs) * IZR (Config.gateway_buoy costs) in
  let coverage_pct :=
    INR (List.length (covered_pois self sns)) / INR (List.length (pois self))
    * 100 in
  (1 <= List.length sns)%nat ->
  (1 <= List.length bgs)%nat ->
  pois self <> [] ->
  (_check_connectivity self sns bgs = true ->
   _evaluate self ind = Ok (cost, coverage_pct))
  /\ (_check_connectivity self sns bgs = false ->
      _evaluate self ind = Ok (cost * 10, coverage_pct * 0.1)).
Proof.
  intros sns bgs costs cost coverage_pct Hs Hb Hp.
  pose proof (evaluate_regular self ind Hs Hb Hp) as H.
  cbv zeta in H. fold sns bgs costs in H.
  split; intros Hc; rewrite Hc in H; exact H.
Qed.

(** With a point of interest to cover, evaluation always returns a pair. *)
Lemma evaluate_returns (self : NetworkOptimizer) (ind : Individual) :
  pois self <> [] -> exists fitness, _evaluate self ind = Ok fitness.
Proof.
  intros Hp.
  destruct (List.length (filter is_active_sn ind)) as [|ns] eqn:Es.
  { eexists. apply evaluate_penalty. now left. }
  destruct (List.length (filter is_active_bg ind)) as [|nb] eqn:Eb.
  { eexists. apply evaluate_penalty. now right. }
  eexists. apply evaluate_regular; [lia | lia | exact Hp].
Qed.

(** Without any point of interest, an individual with an active sensor
    and an active gateway makes the evaluator divide by zero. *)
Lemma evaluate_divides_by_zero (self : NetworkOptimizer) (ind : Individual) :
  pois self = [] ->
  (1 <= List.length (filter is_active_sn ind))%nat ->
  (1 <= List.length (filter is_active_bg ind))%nat ->
  _evaluate self ind = Raise ZeroDivisionError.
Proof.
  intros Hp Hs Hb. unfold _evaluate.
  destruct (List.length (filter is_active_sn ind)) as [|ns]; [lia|].
  destruct (List.length (filter is_active_bg ind)) as [|nb]; [lia|].
  cbn [Nat.eqb orb]. rewrite Hp. reflexivity.
Qed.

(** C3 fails on the code: an optimizer built with an empty list of points
    of interest raises [ZeroDivisionError] when it evaluates the
    individual made of one active sensor and one active gateway, instead
    of returning a fitness pair. *)
Theorem evaluate_raises_without_pois :
  exists self,
    __init__ Config.shipped [] [] 0 0 1 = Ok self
    /\ _evaluate self [Samples.sensor_on; Samples.gateway_on]
       = Raise ZeroDivisionError.
Proof.
  eexists. split; [reflexivity|].
  apply evaluate_divides_by_zero; cbn; [reflexivity | lia | lia].
Qed.

(** C6 fails on the code through the same unguarded division as C3: on
    an optimizer built with an empty list of points of interest, an
    individual with exactly one active sensor and one active gateway
    gets neither (cost, coverage) nor (cost * 10, coverage * 0.1) but
    [ZeroDivisionError], whether the gateway is next to the sensor or on
    the far side of the Earth. *)
Theorem evaluate_cost_lost_without_pois :
  exists self,
    __init__ Config.shipped [] [] 0 0 1 = Ok self
    /\ Forall
         (fun ind =>
            List.length (filter is_active_sn ind) = 1%nat
            /\ List.length (filter is_active_bg ind) = 1%nat
            /\ _evaluate self ind = Raise ZeroDivisionError
            /\ forall fitness, _evaluate self ind <> Ok fitness)
         [[Samples.sensor_on; Samples.gateway_on];
          [Samples.sensor_on; MoreSamples.gateway_far]].
Proof.
  eexists. split; [reflexivity|].
  repeat constructor;
    try (rewrite evaluate_divides_by_zero; cbn; (reflexivity || lia));
    try (intros fitness;
         rewrite evaluate_divides_by_zero; cbn;
         [discriminate | reflexivity | lia | lia]).
Qed.

(** ** Connectivity *)

Lemma haversine_distance_sym (lat1 lon1 lat2 lon2 : R) :
  Models.haversine_distance lat1 lon1 lat2 lon2
  = Models.haversine_distance lat2 lon2 lat1 lon1.
Proof.
  unfold Models.haversine_distance, Models.radians. cbv zeta.
  replace ((lat1 - lat2) * PI / 180 / 2)
    with (- ((lat2 - lat1) * PI / 180 / 2)) by field.
  replace ((lon1 - lon2) * PI / 180 / 2)
    with (- ((lon2 - lon1) * PI / 180 / 2)) by field.
  rewrite !sin_neg.
  replace ((- sin ((lat2 - lat1) * PI / 180 / 2)) ^ 2
           + cos (lat2 * PI / 180) * cos (lat1 * PI / 180)
             * (- sin ((lon2 - lon1) * PI / 180 / 2)) ^ 2)
    with (sin ((lat2 - lat1) * PI / 180 / 2) ^ 2
          + cos (lat1 * PI / 180) * cos (lat2 * PI / 180)
            * sin ((lon2 - lon1) * PI / 180 / 2) ^ 2) by ring.
  reflexivity.
Qed.

Lemma node_distance_sym (u v : Node) : node_distance u v = node_distance v u.
Proof. apply haversine_distance_sym. Qed.

Lemma Rle_bool_true (a b : R) : Rle_bool a b = true <-> a <= b.
Proof.
  unfold Rle_bool. destruct (Rle_dec a b); split; intros; congruence || auto.
Qed.

Example has_path_on_three_nodes :
  let G := {| g_nodes := [0; 1; 2]%nat; g_edges := [(0, 1)]%nat |} in
  has_path G 1 0 = true /\ has_path G 0 2 = false /\ has_path G 2 2 = true.
Proof. repeat split. Qed.

Section Graphs.
Variable self : NetworkOptimizer.
Variable all_nodes : list Node.
Variable null : Node.

Let n := List.length all_nodes.
Let G := build_graph self all_nodes null.
Let at_ (i : nat) := nth i all_nodes null.

Lemma edges_spec (i j : nat) :
  In (i, j) (g_edges G)
  <-> (i < j < n)%nat /\ node_distance (at_ i) (at_ j) <= max_range_m self.
Proof.
  unfold G, build_graph; cbn [g_edges]. fold n.
  rewrite in_flat_map. split.
  - intros (a & Ha & Hin). apply in_flat_map in Hin as (b & Hb & Hin).
    apply in_seq in Ha, Hb. cbv beta zeta in Hin.
    destruct (Rle_bool _ _) eqn:Hd; [|contradiction].
    destruct Hin as [Heq|[]]. injection Heq as <- <-.
    apply Rle_bool_true in Hd. split; [lia | exact Hd].
  - intros [Hij Hd]. exists i. split; [apply in_seq; lia|].
    apply in_flat_map. exists j. split; [apply in_seq; lia|].
    apply Rle_bool_true in Hd. unfold at_ in Hd. cbv beta zeta.
    rewrite Hd. now left.
Qed.

Lemma adjacent_spec (i j : nat) :
  adjacent G i j = true
  <-> (i < n)%nat /\ (j < n)%nat /\ i <> j
      /\ node_distance (at_ i) (at_ j) <= max_range_m self.
Proof.
  unfold adjacent. rewrite existsb_exists. split.
  - intros ([a b] & Hin & Hab). apply edges_spec in Hin as [Hlt Hd].
    cbn [fst snd] in Hab.
    apply orb_true_iff in Hab as [H|H];
      apply andb_true_iff in H as [H1 H2];
      apply Nat.eqb_eq in H1, H2; subst.
    + repeat split; try lia. exact Hd.
    + repeat split; try lia. rewrite node_distance_sym. exact Hd.
  - intros (Hi & Hj & Hne & Hd).
    destruct (Nat.lt_ge_cases i j) as [Hlt|Hge].
    + exists (i, j). split; [apply edges_spec; split; [lia | exact Hd]|].
      cbn [fst snd]. rewrite !Nat.eqb_refl. reflexivity.
    + exists (j, i). split.
      * apply edges_spec. split; [lia|]. rewrite node_distance_sym. exact Hd.
      * cbn [fst snd]. rewrite !Nat.eqb_refl. apply orb_true_r.
Qed.

Let E (i j : nat) : Prop := adjacent G i j = true.

Lemma walk_spec (k : nat) :
  forall i j,
    walk G k i j = true
    <-> exists p, (List.length p <= k)%nat /\ chain E i p j.
Proof.
  induction k as [|k IH]; intros i j; cbn [walk].
  - rewrite orb_false_r, Nat.eqb_eq. split.
    + intros ->. exists []. split; [apply Nat.le_refl | reflexivity].
    + intros ([|m p] & Hlen & Hc); [exact Hc | cbn in Hlen; lia].
  - rewrite orb_true_iff, Nat.eqb_eq, existsb_exists. split.
    + intros [->|(m & _ & Hm)].
      * exists []. split; [cbn; lia | reflexivity].
      * apply andb_true_iff in Hm as [Ha Hw].
        apply IH in Hw as (p & Hlen & Hc).
        exists (m :: p). split; [cbn; lia | split; assumption].
    + intros ([|m p] & Hlen & Hc); [left; exact Hc|].
      destruct Hc as [Ha Hc]. right. exists m. split.
      * apply adjacent_spec in Ha. unfold G, build_graph; cbn [g_nodes].
        apply in_seq. fold n. lia.
      * apply andb_true_iff. split; [exact Ha|].
        apply IH. exists p. split; [cbn in Hlen; lia | exact Hc].
Qed.

Lemma chain_suffix (j : nat) (l2 : list nat) (i : nat) :
  forall l1 a q, a :: q = l1 ++ i :: l2 -> chain E a q j -> chain E i l2 j.
Proof.
  induction l1 as [|b l1 IH]; intros a q Heq Hc.
  - injection Heq as -> ->. exact Hc.
  - injection Heq as -> ->.
    destruct l1 as [|c l1]; cbn in Hc; destruct Hc as [_ Hc].
    + exact Hc.
    + apply (IH c (l1 ++ i :: l2)); [reflexivity | exact Hc].
Qed.

Lemma chain_simple (j : nat) (p : list nat) :
  forall i, chain E i p j ->
            exists q, chain E i q j /\ NoDup (i :: q).
Proof.
  induction p as [|m p IH]; intros i Hc.
  - exists []. split; [exact Hc | repeat constructor; intros []].
  - destruct Hc as [Ha Hc]. destruct (IH m Hc) as (q & Hq & Hnd).
    destruct (in_dec Nat.eq_dec i (m :: q)) as [Hin|Hnin].
    + apply in_split in Hin as (l1 & l2 & Heq).
      exists l2. split.
      * apply (chain_suffix j l2 i l1 m q Heq Hq).
      * rewrite Heq in Hnd. apply NoDup_app_remove_l in Hnd. exact Hnd.
    + exists (m :: q). split; [split; assumption | constructor; assumption].
Qed.

Lemma chain_below (j : nat) (p : list nat) :
  forall i, chain E i p j -> forall m, In m p -> (m < n)%nat.
Proof.
  induction p as [|a p IH]; intros i Hc m Hin; [destruct Hin|].
  destruct Hc as [Ha Hc]. destruct Hin as [<-|Hin].
  - apply adjacent_spec in Ha. lia.
  - apply (IH a Hc m Hin).
Qed.

Lemma has_path_spec (i j : nat) :
  has_path G i j = true <-> exists p, chain E i p j.
Proof.
  unfold has_path. rewrite walk_spec. split.
  - intros (p & _ & Hc). exists p. exact Hc.
  - intros (p & Hc). apply chain_simple in Hc as (q & Hq & Hnd).
    exists q. split; [|exact Hq].
    unfold G, build_graph; cbn [g_nodes]. rewrite length_seq. fold n.
    destruct q as [|m q]; [cbn; lia|].
    assert (Hincl : incl (i :: m :: q) (seq 0 n)).
    { intros x [<-|Hx]; apply in_seq.
      - destruct Hq as [Ha _]. apply adjacent_spec in Ha. lia.
      - pose proof (chain_below j (m :: q) i Hq x Hx). lia. }
    apply (NoDup_incl_length Hnd) in Hincl. rewrite length_seq in Hincl.
    cbn [List.length] in *. lia.
Qed.

Lemma linked_chain (i j : nat) :
  linked self all_nodes i j <-> exists p, chain E i p j.
Proof.
  split.
  - induction 1 as [i|i m j u v Hne Hu Hv Hr _ (p & Hc)].
    + exists []. reflexivity.
    + exists (m :: p). split; [|exact Hc].
      apply adjacent_spec.
      assert (Hi : (i < n)%nat) by (apply nth_error_Some; congruence).
      assert (Hm : (m < n)%nat) by (apply nth_error_Some; congruence).
      repeat split; try assumption.
      unfold at_. rewrite (nth_error_nth _ _ _ Hu), (nth_error_nth _ _ _ Hv).
      exact Hr.
  - intros (p & Hc). revert i Hc.
    induction p as [|m p IH]; intros i Hc.
    + cbn in Hc. subst. constructor.
    + destruct Hc as [Ha Hc]. apply adjacent_spec in Ha as (Hi & Hm & Hne & Hd).
      apply (linked_hop self all_nodes i m j (at_ i) (at_ m)).
      * exact Hne.
      * apply nth_error_nth'. exact Hi.
      * apply nth_error_nth'. exact Hm.
      * exact Hd.
      * apply IH. exact Hc.
Qed.

Lemma has_path_linked (i j : nat) :
  has_path G i j = true <-> linked self all_nodes i j.
Proof. rewrite has_path_spec, linked_chain. reflexivity. Qed.

End Graphs.

Lemma in_enumerate {A} (l : list A) (i : nat) (x : A) :
  forall s, In (i, x) (combine (seq s (List.length l)) l)
            <-> (s <= i)%nat /\ nth_error l (i - s) = Some x.
Proof.
  induction l as [|a l IH]; intros s; cbn [List.length seq combine].
  - split; [intros [] | intros [_ H]; destruct (i - s)%nat; discriminate].
  - cbn [In]. rewrite IH. split.
    + intros [Heq|[Hle Hn]].
      * injection Heq as <- <-. rewrite Nat.sub_diag. split; [lia | reflexivity].
      * split; [lia|].
        replace (i - s)%nat with (S (i - S s)) by lia. exact Hn.
    + intros [Hle Hn]. destruct (Nat.eq_dec i s) as [->|Hne].
      * rewrite Nat.sub_diag in Hn. injection Hn as <-. now left.
      * right. split; [lia|].
        replace (i - s)%nat with (S (i - S s)) in Hn by lia. exact Hn.
Qed.

Lemma bg_indices_spec (all_nodes : list Node) (null : Node) (b : nat) :
  In b (map fst (filter (fun p => (node_type (snd p) =? 1)%Z)
                        (enumerate all_nodes)))
  <-> (b < List.length all_nodes)%nat
      /\ node_type (nth b all_nodes null) = 1%Z.
Proof.
  rewrite in_map_iff. split.
  - intros ([i x] & <- & Hin). apply filter_In in Hin as [Hin Ht].
    apply in_enumerate in Hin as [_ Hn]. rewrite Nat.sub_0_r in Hn.
    cbn [fst snd] in *. split.
    + apply nth_error_Some. congruence.
    + rewrite (nth_error_nth _ _ _ Hn). apply Z.eqb_eq. exact Ht.
  - intros [Hb Ht]. exists (b, nth b all_nodes null). split; [reflexivity|].
    apply filter_In. split.
    + apply in_enumerate. split; [lia|]. rewrite Nat.sub_0_r.
      apply nth_error_nth'. exact Hb.
    + cbn [snd]. apply Z.eqb_eq. exact Ht.
Qed.

(** With sensors first and gateways after them, the positions tagged as
    gateways are exactly those past the sensors. *)
Lemma bg_indices_positions (sns bgs : list Node) (null : Node) (b : nat) :
  Forall (fun u => is_active_sn u = true) sns ->
  Forall (fun v => is_active_bg v = true) bgs ->
  In b (map fst (filter (fun p => (node_type (snd p) =? 1)%Z)
                        (enumerate (sns ++ bgs))))
  <-> exists k, (k < List.length bgs)%nat /\ b = (List.length sns + k)%nat.
Proof.
  intros Hs Hg. rewrite (bg_indices_spec _ null), length_app.
  rewrite Forall_forall in Hs, Hg. split.
  - intros [Hb Ht]. destruct (Nat.lt_ge_cases b (List.length sns)) as [Hlt|Hge].
    + rewrite app_nth1 in Ht by exact Hlt.
      pose proof (Hs _ (nth_In sns null Hlt)) as Hu.
      apply andb_true_iff in Hu as [Hu _]. apply Z.eqb_eq in Hu. lia.
    + exists (b - List.length sns)%nat. lia.
  - intros (k & Hk & ->). split; [lia|].
    rewrite app_nth2 by lia.
    replace (List.length sns + k - List.length sns)%nat with k by lia.
    pose proof (Hg _ (nth_In bgs null Hk)) as Hv.
    apply andb_true_iff in Hv as [Hv _]. apply Z.eqb_eq in Hv. exact Hv.
Qed.

Lemma check_connectivity_feasible (self : NetworkOptimizer)
  (active_sns active_bgs : list Node) :
  Forall (fun u => is_active_sn u = true) active_sns ->
  Forall (fun v => is_active_bg v = true) active_bgs ->
  _check_connectivity self active_sns active_bgs = true
  <-> feasible self active_sns active_bgs.
Proof.
  intros Hs Hg. unfold _check_connectivity, feasible.
  destruct active_bgs as [|null rest].
  { split; [discriminate | intros [H _]; congruence]. }
  set (bgs := null :: rest) in *. cbv zeta.
  pose proof (fun b => bg_indices_positions active_sns bgs null b Hs Hg) as Hpos.
  destruct (map fst _) as [|b0 others] eqn:Hbg.
  { exfalso. apply (proj2 (Hpos (List.length active_sns + 0)%nat)).
    exists 0%nat. split; [cbn; lia | reflexivity]. }
  rewrite forallb_forall. split.
  - intros Hall. split; [discriminate|]. intros s Hlt.
    assert (Hin : In s (seq 0 (List.length active_sns))) by (apply in_seq; lia).
    apply Hall, existsb_exists in Hin as (b & Hb & Hp).
    apply Hpos in Hb as (k & Hk & ->). exists k. split; [exact Hk|].
    apply has_path_linked in Hp. exact Hp.
  - intros [_ Hfe] s Hin. apply in_seq in Hin.
    destruct (Hfe s) as (k & Hk & Hl); [lia|].
    apply existsb_exists. exists (List.length active_sns + k)%nat. split.
    + apply Hpos. exists k. split; [exact Hk | reflexivity].
    + apply has_path_linked. exact Hl.
Qed.

Lemma star_feasible (self : NetworkOptimizer) (active_sns : list Node)
  (gateway : Node) :
  Forall (fun sensor => in_range self sensor gateway) active_sns ->
  feasible self active_sns [gateway].
Proof.
  intros Hr. split; [discriminate|]. intros s Hlt. exists 0%nat.
  split; [cbn; lia|]. rewrite Nat.add_0_r.
  destruct (nth_error active_sns s) as [u|] eqn:Hu;
    [|apply nth_error_None in Hu; lia].
  apply (linked_hop self _ s (List.length active_sns) _ u gateway).
  - lia.
  - rewrite nth_error_app1 by exact Hlt. exact Hu.
  - rewrite nth_error_app2, Nat.sub_diag by lia. reflexivity.
  - rewrite Forall_forall in Hr. apply Hr. apply (nth_error_In _ _ Hu).
  - constructor.
Qed.

(** C5: given the active sensors and the active gateways of an individual,
    the connectivity checker answers true exactly when some gateway is
    active and every active sensor is joined to an active gateway by a
    path of the undirected graph whose edges are the pairs of active nodes
    within communication range of each other.  In particular one active
    gateway with any number of active sensors all within range of it is
    accepted. *)
Theorem check_connectivity_correct (self : NetworkOptimizer)
  (active_sns active_bgs : list Node) :
  Forall (fun u => is_active_sn u = true) active_sns ->
  Forall (fun v => is_active_bg v = true) active_bgs ->
  (_check_connectivity self active_sns active_bgs = true
   <-> feasible self active_sns active_bgs)
  /\ (forall gateway,
        active_bgs = [gateway] ->
        Forall (fun sensor => in_range self sensor gateway) active_sns ->
        _check_connectivity self active_sns active_bgs = true).
Proof.
  intros Hs Hg. split.
  - apply check_connectivity_feasible; assumption.
  - intros gateway -> Hr.
    apply check_connectivity_feasible; [assumption | assumption |].
    apply star_feasible. exact Hr.
Qed.

Lemma check_connectivity_correct_witness :
  Forall (fun u => is_active_sn u = true) [Samples.sensor_on]
  /\ Forall (fun v => is_active_bg v = true) [Samples.gateway_on]
  /\ (_check_connectivity (Samples.optimizer_with [Samples.poi_center])
        [Samples.sensor_on] [Samples.gateway_on] = true
      <-> feasible (Samples.optimizer_with [Samples.poi_center])
            [Samples.sensor_on] [Samples.gateway_on]).
Proof.
  assert (H1 : Forall (fun u => is_active_sn u = true) [Samples.sensor_on])
    by (repeat constructor).
  assert (H2 : Forall (fun v => is_active_bg v = true) [Samples.gateway_on])
    by (repeat constructor).
  split; [exact H1 | split; [exact H2|]].
  exact (proj1 (check_connectivity_correct
                  (Samples.optimizer_with [Samples.poi_center])
                  [Samples.sensor_on] [Samples.gateway_on] H1 H2)).
Defined.

Lemma evaluate_cost_and_penalty_witness :
  (1 <= List.length
          (filter is_active_sn [Samples.sensor_on; Samples.gateway_on]))%nat
  /\ (1 <= List.length
             (filter is_active_bg [Samples.sensor_on; Samples.gateway_on]))%nat
  /\ pois (Samples.optimizer_with [Samples.poi_center]) <> []
  /\ exists fitness,
       _evaluate (Samples.optimizer_with [Samples.poi_center])
         [Samples.sensor_on; Samples.gateway_on] = Ok fitness.
Proof.
  assert (H1 : (1 <= List.length
                  (filter is_active_sn [Samples.sensor_on; Samples.gateway_on]))%nat)
    by (cbn; lia).
  assert (H2 : (1 <= List.length
                  (filter is_active_bg [Samples.sensor_on; Samples.gateway_on]))%nat)
    by (cbn; lia).
  assert (H3 : pois (Samples.optimizer_with [Samples.poi_center]) <> [])
    by (cbn; discriminate).
  split; [exact H1 | split; [exact H2 | split; [exact H3|]]].
  destruct (evaluate_cost_and_penalty
              (Samples.optimizer_with [Samples.poi_center])
              [Samples.sensor_on; Samples.gateway_on] H1 H2 H3) as [Hyes Hno].
  destruct (_check_connectivity (Samples.optimizer_with [Samples.poi_center])
              (filter is_active_sn [Samples.sensor_on; Samples.gateway_on])
              (filter is_active_bg [Samples.sensor_on; Samples.gateway_on])).
  - eexists. apply Hyes. reflexivity.
  - eexists. apply Hno. reflexivity.
Defined.

(** ** Crossover *)

Lemma slice_index_inside (len : nat) (i : Z) :
  (0 <= i <= Z.of_nat len)%Z -> slice_index len i = Z.to_nat i.
Proof.
  intros H. unfold slice_index.
  destruct (Z.ltb_spec i 0); [lia|]. f_equal. lia.
Qed.

Lemma three_parts {A} (l : list A) (s e : nat) :
  (s <= e)%nat ->
  l = firstn s l ++ firstn (e - s) (skipn s l) ++ skipn e l.
Proof.
  intros H.
  replace (skipn e l) with (skipn (e - s) (skipn s l))
    by (rewrite skipn_skipn; f_equal; lia).
  rewrite (firstn_skipn (e - s) (skipn s l)), firstn_skipn. reflexivity.
Qed.

Lemma swap_outer {A} (X Y Z W : list A) :
  Permutation (X ++ Y ++ Z ++ W) (Z ++ Y ++ X ++ W).
Proof.
  rewrite (Permutation_app_swap_app X Y (Z ++ W)).
  rewrite (Permutation_app_swap_app X Z W).
  apply Permutation_app_swap_app.
Qed.

(** The exchange with ordered cut points inside both lists. *)
Lemma exchange_ordered (ind1 ind2 : Individual) (n : nat) (a b : Z) :
  List.length ind1 = n -> List.length ind2 = n ->
  (0 <= a <= b)%Z -> (b <= Z.of_nat n)%Z ->
  let o1 := slice_assign ind1 a b (slice ind2 a b) in
  let o2 := slice_assign ind2 a b (slice ind1 a b) in
  List.length o1 = n /\ List.length o2 = n
  /\ Permutation (o1 ++ o2) (ind1 ++ ind2).
Proof.
  intros L1 L2 Hab Hb. unfold slice_assign, slice. cbv zeta.
  rewrite L1, L2, !slice_index_inside by lia.
  set (s := Z.to_nat a). set (e := Z.to_nat b).
  assert (Hse : (s <= e <= n)%nat) by (subst s e; lia).
  rewrite Nat.max_r by lia.
  split; [|split].
  - rewrite !length_app, !length_firstn, !length_skipn. lia.
  - rewrite !length_app, !length_firstn, !length_skipn. lia.
  - rewrite (three_parts ind1 s e) at 4 by lia.
    rewrite (three_parts ind2 s e) at 4 by lia.
    rewrite <- !app_assoc. apply Permutation_app_head.
    rewrite !(app_assoc (skipn e ind1)). apply swap_outer.
Qed.

(** C7: crossing two individuals of the same length [n >= 2] at cut
    points taken in [[1, n-1]] yields two offspring of length [n] each,
    and the nodes of the two offspring taken together are, as a multiset,
    the nodes of the two parents taken together. *)
Theorem crossover_preserves (ind1 ind2 : Individual) (n : nat)
  (cx_point1 cx_point2 : Z) :
  List.length ind1 = n -> List.length ind2 = n -> (2 <= n)%nat ->
  (1 <= cx_point1 <= Z.of_nat n - 1)%Z ->
  (1 <= cx_point2 <= Z.of_nat n - 1)%Z ->
  List.length (fst (crossover_at cx_point1 cx_point2 ind1 ind2)) = n
  /\ List.length (snd (crossover_at cx_point1 cx_point2 ind1 ind2)) = n
  /\ Permutation
       (fst (crossover_at cx_point1 cx_point2 ind1 ind2)
        ++ snd (crossover_at cx_point1 cx_point2 ind1 ind2))
       (ind1 ++ ind2).
Proof.
  intros L1 L2 Hn H1 H2. unfold crossover_at.
  destruct (Z.gtb_spec cx_point1 cx_point2); cbn [fst snd];
    apply exchange_ordered; assumption || lia.
Qed.

Lemma crossover_preserves_witness :
  List.length [Samples.sensor_on; Samples.sensor_off; Samples.gateway_on]
  = 3%nat
  /\ List.length [Samples.sensor_off; Samples.sensor_on; Samples.gateway_off]
     = 3%nat
  /\ (2 <= 3)%nat
  /\ (1 <= 2 <= Z.of_nat 3 - 1)%Z
  /\ (1 <= 1 <= Z.of_nat 3 - 1)%Z
  /\ List.length
       (fst (crossover_at 2 1
               [Samples.sensor_on; Samples.sensor_off; Samples.gateway_on]
               [Samples.sensor_off; Samples.sensor_on; Samples.gateway_off]))
     = 3%nat.
Proof.
  repeat (split; [reflexivity || lia|]).
  apply (crossover_preserves
           [Samples.sensor_on; Samples.sensor_off; Samples.gateway_on]
           [Samples.sensor_off; Samples.sensor_on; Samples.gateway_off]
           3 2 1); reflexivity || lia.
Defined.

Example crossover_at_2_1 :
  crossover_at 2 1
    [Samples.sensor_on; Samples.sensor_off; Samples.gateway_on]
    [Samples.sensor_off; Samples.sensor_on; Samples.gateway_off]
  = ([Samples.sensor_on; Samples.sensor_on; Samples.gateway_on],
     [Samples.sensor_off; Samples.sensor_off; Samples.gateway_off]).
Proof. reflexivity. Qed.

(** With a generator that keeps the promises of [random], [_crossover]
    on an individual of at least two nodes draws two cut points in
    [[1, n-1]] and performs the exchange at them. *)
Lemma crossover_draws (gen : Generator) (ind1 ind2 : Individual)
  (g : rng gen) :
  Lawful gen -> (2 <= List.length ind1)%nat ->
  exists c1 c2 g',
    (1 <= c1 <= Z.of_nat (List.length ind1) - 1)%Z
    /\ (1 <= c2 <= Z.of_nat (List.length ind1) - 1)%Z
    /\ _crossover ind1 ind2 g = (Ok (crossover_at c1 c2 ind1 ind2), g').
Proof.
  intros Hlaw Hn. unfold _crossover, bind, randint, lift, ret.
  destruct (Z.ltb_spec (Z.of_nat (List.length ind1) - 1) 1) as [Hlt|Hge]; [lia|].
  pose proof (randint_in_range gen Hlaw 1 _ g Hge) as H1.
  destruct (gen_randint gen 1 _ g) as [c1 g1].
  pose proof (randint_in_range gen Hlaw 1 _ g1 Hge) as H2.
  destruct (gen_randint gen 1 _ g1) as [c2 g2].
  exists c1, c2, g2. cbn [fst] in *. repeat split; lia || reflexivity.
Qed.

(** ** Mutation *)

Lemma mutate_node_frame (gen : Generator) (self : NetworkOptimizer)
  (node : Node) (g : rng gen) :
  exists node' g',
    mutate_node self node g = (Ok node', g')
    /\ depth node' = depth node
    /\ node_type node' = node_type node.
Proof.
  unfold mutate_node, bind, random, gauss, choice, lift, ret.
  destruct (gen_random gen g) as [u g1].
  destruct (Rlt_bool u (mut_rate self)).
  - destruct (gen_randbelow gen _ g1) as [i g2].
    destruct (String.eqb _ "position").
    + destruct (gen_gauss gen 0 _ g2) as [d_lat g3].
      destruct (gen_gauss gen 0 _ g3) as [d_lon g4].
      eexists _, _. repeat split.
    + eexists _, _. repeat split.
  - eexists _, _. repeat split.
Qed.

(** C10: whatever the generator draws, mutation returns an individual of
    the same length in which every node keeps its depth and its type tag:
    only latitude, longitude and the activation flag can differ. *)
Theorem mutate_frame (gen : Generator) (self : NetworkOptimizer)
  (individual : Individual) (g : rng gen) :
  exists individual' g',
    _mutate self individual g = (Ok individual', g')
    /\ List.length individual' = List.length individual
    /\ map depth individual' = map depth individual
    /\ map node_type individual' = map node_type individual.
Proof.
  unfold _mutate. revert g.
  induction individual as [|node rest IH]; intros g; cbn [mapM].
  - exists [], g. repeat split.
  - unfold bind at 1.
    destruct (mutate_node_frame gen self node g) as (node' & g1 & -> & Hd & Ht).
    unfold bind at 1.
    destruct (IH g1) as (rest' & g2 & -> & Hlen & Hds & Hts).
    exists (node' :: rest'), g2. unfold ret. cbn [List.length map].
    repeat split; congruence.
Qed.

End OptimizerFacts.

(** * More about the acoustic link model *)

Module ModelsExtra.
Import Models.

Lemma ln_10_pos : 0 < ln 10.
Proof. rewrite <- ln_1. apply ln_increasing; lra. Qed.

Lemma thorp_at_least (f : R) : 0.003 <= thorp_absorption_coefficient f.
Proof.
  unfold thorp_absorption_coefficient. cbv zeta.
  assert (H0 : 0 <= f ^ 2) by nra.
  assert (H1 : 0 <= 0.11 * f ^ 2 / (1 + f ^ 2))
    by (apply Rle_mult_inv_pos; nra).
  assert (H2 : 0 <= 44 * f ^ 2 / (4100 + f ^ 2))
    by (apply Rle_mult_inv_pos; nra).
  nra.
Qed.

Lemma log10_increasing (x y : R) : 0 < x -> x < y -> log10 x < log10 y.
Proof.
  intros Hx Hxy. unfold log10.
  apply Rmult_lt_compat_r; [apply Rinv_0_lt_compat, ln_10_pos|].
  apply ln_increasing; assumption.
Qed.

Lemma snr_drops (d1 d2 sl nl f : R) :
  0 < d1 -> d1 < d2 ->
  calculate_snr d2 sl nl f < calculate_snr d1 sl nl f.
Proof.
  intros H1 H12. unfold calculate_snr, path_loss_acoustic. cbv zeta.
  pose proof (log10_increasing d1 d2 H1 H12) as Hlog.
  pose proof (thorp_at_least f) as Ha.
  assert (thorp_absorption_coefficient f * (d1 / 1000)
          < thorp_absorption_coefficient f * (d2 / 1000)) by nra.
  lra.
Qed.

(** The farther, the weaker: the signal-to-noise ratio strictly decreases
    with the distance, at every frequency and for every source and noise
    level. *)
Theorem snr_strictly_decreasing (d1 d2 sl nl f : R) :
  0 < d1 -> d1 < d2 ->
  calculate_snr d2 sl nl f < calculate_snr d1 sl nl f.
Proof. exact (snr_drops d1 d2 sl nl f). Qed.

Lemma snr_strictly_decreasing_witness :
  0 < 100 /\ 100 < 200
  /\ calculate_snr 200 170 60 20 < calculate_snr 100 170 60 20.
Proof.
  split; [lra | split; [lra|]].
  apply (snr_strictly_decreasing 100 200 170 60 20); lra.
Defined.

Lemma snr_decreasing (d1 d2 sl nl f : R) :
  0 < d1 -> d1 <= d2 -> calculate_snr d2 sl nl f <= calculate_snr d1 sl nl f.
Proof.
  intros H1 [Hlt| ->]; [|lra].
  left. apply snr_drops; assumption.
Qed.

Section Search.
Variable snr_at : R -> R.

Lemma range_search_inside (m : R) (fuel : nat) :
  forall low high r,
    low <= high ->
    range_search snr_at m fuel low high = Some r ->
    low <= r <= high.
Proof.
  induction fuel as [|fuel IH]; intros low high r Hle; cbn [range_search].
  - destruct (Rgt_dec (high - low) tolerance); [discriminate|].
    intros [= <-]. lra.
  - destruct (Rgt_dec (high - low) tolerance) as [Hgt|_].
    + unfold tolerance in Hgt.
      destruct (Rge_dec (snr_at ((low + high) / 2)) m); intros Hr;
        apply IH in Hr; lra.
    + intros [= <-]. lra.
Qed.

(** What the loop keeps: the lower end is the start or a distance at
    which the link closes, the upper end is the start or a distance at
    which it does not, and on exit the two are within the tolerance. *)
Lemma range_search_brackets (m : R) (fuel : nat) :
  forall low high r,
    low <= high ->
    range_search snr_at m fuel low high = Some r ->
    (r = low \/ snr_at r >= m)
    /\ exists h, (h = high \/ ~ snr_at h >= m)
                 /\ r <= h /\ h - r <= tolerance.
Proof.
  induction fuel as [|fuel IH]; intros low high r Hle; cbn [range_search].
  - destruct (Rgt_dec (high - low) tolerance) as [|Hn]; [discriminate|].
    intros [= <-]. split; [now left|]. exists high. repeat split; lra || now left.
  - destruct (Rgt_dec (high - low) tolerance) as [Hgt|Hn].
    + unfold tolerance in Hgt.
      destruct (Rge_dec (snr_at ((low + high) / 2)) m) as [Hge|Hlt]; intros Hr.
      * apply IH in Hr as [Hlow Hhigh]; [|lra].
        split; [|exact Hhigh]. right. destruct Hlow as [->|H]; assumption.
      * apply IH in Hr as [Hlow (h & Hh & Hb)]; [|lra].
        split; [exact Hlow|]. exists h. split; [|exact Hb].
        right. destruct Hh as [->|H]; assumption.
    + intros [= <-]. split; [now left|].
      exists high. repeat split; lra || now left.
Qed.

Lemma range_search_stays_low (m : R) (fuel : nat) :
  forall low high r,
    (forall d, low < d -> ~ snr_at d >= m) ->
    low <= high ->
    range_search snr_at m fuel low high = Some r ->
    r = low.
Proof.
  induction fuel as [|fuel IH]; intros low high r Hno Hle; cbn [range_search].
  - destruct (Rgt_dec (high - low) tolerance); [discriminate|]. now intros [= <-].
  - destruct (Rgt_dec (high - low) tolerance) as [Hgt|_]; [|now intros [= <-]].
    unfold tolerance in Hgt.
    destruct (Rge_dec (snr_at ((low + high) / 2)) m) as [Hge|_].
    + exfalso. apply (Hno ((low + high) / 2)); [lra | exact Hge].
    + apply IH; [exact Hno | lra].
Qed.

Lemma range_search_goes_high (m : R) (fuel : nat) :
  forall low high r,
    (forall d, low <= d -> d <= high -> snr_at d >= m) ->
    low <= high ->
    range_search snr_at m fuel low high = Some r ->
    high - r <= tolerance.
Proof.
  induction fuel as [|fuel IH]; intros low high r Hall Hle; cbn [range_search].
  - destruct (Rgt_dec (high - low) tolerance); [discriminate|].
    intros [= <-]. lra.
  - destruct (Rgt_dec (high - low) tolerance) as [Hgt|Hn]; [|intros [= <-]; lra].
    unfold tolerance in Hgt.
    destruct (Rge_dec (snr_at ((low + high) / 2)) m) as [_|Hlt].
    + apply IH; [intros d Hd1 Hd2; apply Hall; lra | lra].
    + exfalso. apply Hlt, Hall; lra.
Qed.

(** A stricter threshold never lengthens the range, whatever the curve. *)
Lemma range_search_antitone (m1 m2 : R) (fuel : nat) :
  m1 <= m2 ->
  forall low high r1 r2,
    low <= high ->
    range_search snr_at m1 fuel low high = Some r1 ->
    range_search snr_at m2 fuel low high = Some r2 ->
    r2 <= r1.
Proof.
  intros Hm. induction fuel as [|fuel IH]; intros low high r1 r2 Hle;
    cbn [range_search].
  - destruct (Rgt_dec (high - low) tolerance); [discriminate|].
    intros [= <-] [= <-]. lra.
  - destruct (Rgt_dec (high - low) tolerance) as [Hgt|_];
      [|intros [= <-] [= <-]; lra].
    unfold tolerance in Hgt.
    destruct (Rge_dec (snr_at ((low + high) / 2)) m1) as [H1|H1],
             (Rge_dec (snr_at ((low + high) / 2)) m2) as [H2|H2];
      intros E1 E2.
    + eapply IH; [|exact E1|exact E2]; lra.
    + apply range_search_inside in E1, E2; lra.
    + exfalso. apply H1. lra.
    + eapply IH; [|exact E1|exact E2]; lra.
Qed.

End Search.

Lemma max_range_within (m sl nl f : R) :
  range_search (fun mid => calculate_snr mid sl nl f) m search_iterations
    1 10000
  = Some (max_communication_range m sl nl f).
Proof.
  unfold max_communication_range, max_communication_range_within.
  destruct (ModelsFacts.range_search_exits
              (fun mid => calculate_snr mid sl nl f) m 0) as (r & Hr & _).
  rewrite Nat.add_0_r in Hr. rewrite Hr. reflexivity.
Qed.

(** When the link closes at 1 m and not at 10 km, the range returned is
    within the 0.1 m tolerance of the true limit: the link closes at every
    distance from 1 m up to the range, and at no distance from the range
    plus 0.1 m on. *)
Theorem max_range_is_the_limit (m sl nl f : R) :
  calculate_snr 1 sl nl f >= m ->
  calculate_snr 10000 sl nl f < m ->
  forall d, 1 <= d ->
    (d <= max_communication_range m sl nl f -> calculate_snr d sl nl f >= m)
    /\ (max_communication_range m sl nl f + 0.1 <= d ->
        calculate_snr d sl nl f < m).
Proof.
  intros H1 H2 d Hd.
  pose proof (max_range_within m sl nl f) as Hr.
  remember (max_communication_range m sl nl f) as r eqn:Er. clear Er.
  assert (Hin : 1 <= r <= 10000)
    by (apply range_search_inside in Hr; lra).
  apply range_search_brackets in Hr as [Hlow (h & Hh & Hrh & Htol)]; [|lra].
  cbv beta in Hlow, Hh. unfold tolerance in Htol.
  assert (Hsr : calculate_snr r sl nl f >= m)
    by (destruct Hlow as [->|H]; assumption).
  assert (Hsh : calculate_snr h sl nl f < m)
    by (destruct Hh as [->|H]; [assumption | lra]).
  split; intros Hc.
  - pose proof (snr_decreasing d r sl nl f ltac:(lra) Hc). lra.
  - pose proof (snr_decreasing h d sl nl f ltac:(lra) ltac:(lra)). lra.
Qed.

(** The two ends of the search: when the link does not even close at 1 m
    the range returned is exactly 1 m, not zero and not an error; when it
    still closes at 10 km the range returned is within 0.1 m of 10 km. *)
Theorem max_range_at_the_ends (m sl nl f : R) :
  (calculate_snr 1 sl nl f < m -> max_communication_range m sl nl f = 1)
  /\ (calculate_snr 10000 sl nl f >= m ->
      9999.9 <= max_communication_range m sl nl f <= 10000).
Proof.
  pose proof (max_range_within m sl nl f) as Hr.
  remember (max_communication_range m sl nl f) as r eqn:Er. clear Er.
  split; intros H.
  - apply range_search_stays_low in Hr; [exact Hr | | lra].
    intros d Hd Hge. cbv beta in Hge.
    pose proof (snr_decreasing 1 d sl nl f ltac:(lra) ltac:(lra)). lra.
  - assert (Hin : 1 <= r <= 10000)
      by (apply range_search_inside in Hr; lra).
    apply range_search_goes_high in Hr; [unfold tolerance in Hr; lra | | lra].
    intros d Hd1 Hd2. cbv beta.
    pose proof (snr_decreasing d 10000 sl nl f ltac:(lra) Hd2). lra.
Qed.

Lemma max_range_is_the_limit_witness :
  calculate_snr 1 170 60 20 >= 100
  /\ calculate_snr 10000 170 60 20 < 100
  /\ forall d, 1 <= d ->
       (d <= max_communication_range 100 170 60 20 ->
        calculate_snr d 170 60 20 >= 100)
       /\ (max_communication_range 100 170 60 20 + 0.1 <= d ->
           calculate_snr d 170 60 20 < 100).
Proof.
  assert (Hnear : calculate_snr 1 170 60 20 >= 100).
  { unfold calculate_snr, path_loss_acoustic, log10,
      thorp_absorption_coefficient. cbv zeta. rewrite ln_1. lra. }
  assert (Hfar : calculate_snr 10000 170 60 20 < 100).
  { pose proof (log10_increasing 1 10000 ltac:(lra) ltac:(lra)) as Hl.
    unfold log10 at 1 in Hl. rewrite ln_1 in Hl.
    unfold calculate_snr, path_loss_acoustic,
      thorp_absorption_coefficient. cbv zeta. lra. }
  split; [exact Hnear | split; [exact Hfar|]].
  exact (max_range_is_the_limit 100 170 60 20 Hnear Hfar).
Defined.

(** For fixed source level, noise level and frequency, asking for a higher
    signal-to-noise ratio never lengthens the communication range. *)
Theorem max_range_antitone (m1 m2 sl nl f : R) :
  m1 <= m2 ->
  max_communication_range m2 sl nl f <= max_communication_range m1 sl nl f.
Proof.
  intros Hm.
  pose proof (max_range_within m1 sl nl f) as H1.
  pose proof (max_range_within m2 sl nl f) as H2.
  remember (max_communication_range m1 sl nl f) as r1 eqn:E1. clear E1.
  remember (max_communication_range m2 sl nl f) as r2 eqn:E2. clear E2.
  eapply range_search_antitone; [exact Hm | | exact H1 | exact H2]. lra.
Qed.

Lemma max_range_antitone_witness :
  10 <= 20
  /\ max_communication_range 20 170 60 20
     <= max_communication_range 10 170 60 20.
Proof.
  split; [lra | apply (max_range_antitone 10 20 170 60 20); lra].
Defined.

(** ** Great-circle distance *)

Lemma arctan2_quadrant (y x : R) :
  0 <= y -> 0 <= x -> 0 <= arctan2 y x <= PI / 2.
Proof.
  intros Hy Hx. pose proof PI_RGT_0 as Hpi. unfold arctan2.
  destruct (Rlt_dec 0 x) as [Hpos|Hnpos].
  - pose proof (atan_bound (y / x)) as Hb. split; [|lra].
    destruct Hy as [Hy| <-].
    + assert (H : 0 < y / x) by (apply Rdiv_lt_0_compat; assumption).
      pose proof (atan_increasing 0 (y / x) H) as Hi.
      rewrite atan_0 in Hi. lra.
    + unfold Rdiv. rewrite Rmult_0_l, atan_0. lra.
  - destruct (Rlt_dec x 0); [lra|].
    destruct (Rlt_dec 0 y); [lra|].
    destruct (Rlt_dec y 0); lra.
Qed.

(** The distance between two points is never negative and never more than
    half the circumference of the Earth. *)
Theorem haversine_distance_bounds (lat1 lon1 lat2 lon2 : R) :
  0 <= haversine_distance lat1 lon1 lat2 lon2 <= PI * 6371000.
Proof.
  unfold haversine_distance. cbv zeta.
  match goal with
  | |- context [arctan2 ?y ?x] =>
      pose proof (arctan2_quadrant y x (sqrt_pos _) (sqrt_pos _)) as H
  end.
  lra.
Qed.

Lemma haversine_distance_zero (lat1 lon1 : R) :
  haversine_distance lat1 lon1 lat1 lon1 = 0.
Proof.
  unfold haversine_distance, radians. cbv zeta.
  replace ((lat1 - lat1) * PI / 180 / 2) with 0 by field.
  replace ((lon1 - lon1) * PI / 180 / 2) with 0 by field.
  rewrite sin_0.
  replace (0 ^ 2 + cos (lat1 * PI / 180) * cos (lat1 * PI / 180) * 0 ^ 2)
    with 0 by ring.
  rewrite Rminus_0_r, sqrt_0, sqrt_1. unfold arctan2.
  destruct (Rlt_dec 0 1); [|lra].
  unfold Rdiv. rewrite Rmult_0_l, atan_0. ring.
Qed.

(** The distance does not depend on the order of the two points, and a
    point is at distance zero from itself. *)
Theorem haversine_distance_symmetric (lat1 lon1 lat2 lon2 : R) :
  haversine_distance lat1 lon1 lat2 lon2
  = haversine_distance lat2 lon2 lat1 lon1
  /\ haversine_distance lat1 lon1 lat1 lon1 = 0.
Proof.
  split; [apply OptimizerFacts.haversine_distance_sym|].
  apply haversine_distance_zero.
Qed.

End ModelsExtra.

(** * Decibels, channel capacity and costs *)

Module EconomicsFacts.
Import Economics.

Lemma ln_2_pos : 0 < ln 2.
Proof. rewrite <- ln_1. apply ln_increasing; lra. Qed.

(** Converting decibels to a linear ratio and back gives the decibels
    again; converting a positive ratio to decibels and back gives the
    ratio again. *)
Theorem decibel_round_trip :
  (forall db, linear_to_db (db_to_linear db) = db)
  /\ (forall linear, 0 < linear -> db_to_linear (linear_to_db linear) = linear).
Proof.
  pose proof ModelsExtra.ln_10_pos as H10.
  split.
  - intros db. unfold linear_to_db, db_to_linear, Models.log10, Rpower.
    rewrite ln_exp. field. lra.
  - intros x Hx. unfold linear_to_db, db_to_linear, Models.log10, Rpower.
    replace (10 * (ln x / ln 10) / 10 * ln 10) with (ln x) by (field; lra).
    apply exp_ln. exact Hx.
Qed.

(** A channel without signal carries nothing, and over a given positive
    bandwidth the capacity grows strictly with the signal-to-noise
    ratio. *)
Theorem shannon_capacity_grows (bandwidth_hz snr1 snr2 : R) :
  0 < bandwidth_hz -> -1 < snr1 -> snr1 < snr2 ->
  shannon_capacity bandwidth_hz 0 = 0
  /\ shannon_capacity bandwidth_hz snr1 < shannon_capacity bandwidth_hz snr2.
Proof.
  intros Hb H1 H12. unfold shannon_capacity, log2. cbv zeta. split.
  - rewrite Rplus_0_r, ln_1. unfold Rdiv. ring.
  - apply Rmult_lt_compat_l; [exact Hb|].
    apply Rmult_lt_compat_r; [apply Rinv_0_lt_compat, ln_2_pos|].
    apply ln_increasing; lra.
Qed.

Lemma shannon_capacity_grows_witness :
  0 < 10000 /\ -1 < 10 /\ 10 < 100
  /\ shannon_capacity 10000 10 < shannon_capacity 10000 100.
Proof.
  repeat (split; [lra|]).
  apply (shannon_capacity_grows 10000 10 100); lra.
Defined.

(** With prices and rates that are not negative, the total cost of
    ownership over a number of years that is not negative never goes down
    when sensor nodes or gateway buoys are added. *)
Theorem tco_monotone (costs : EquipmentCosts) (rates : OpexRates)
  (num_sns num_sns' num_bgs num_bgs' years : Z) :
  (0 <= cost_sensor_node costs)%Z -> (0 <= cost_gateway_buoy costs)%Z ->
  0 <= rate_sensor_node rates -> 0 <= rate_gateway_buoy rates ->
  (0 <= years)%Z -> (num_sns <= num_sns')%Z -> (num_bgs <= num_bgs')%Z ->
  tco (calculate_tco costs rates num_sns num_bgs years)
  <= tco (calculate_tco costs rates num_sns' num_bgs' years).
Proof.
  intros Hcs Hcg Hrs Hrg Hy Hn Hm. unfold calculate_tco, calculate_opex_annual,
    calculate_capex. cbn.
  apply IZR_le in Hy.
  assert (Hs : IZR (num_sns * cost_sensor_node costs)
               <= IZR (num_sns' * cost_sensor_node costs))
    by (apply IZR_le; nia).
  assert (Hg : IZR (num_bgs * cost_gateway_buoy costs)
               <= IZR (num_bgs' * cost_gateway_buoy costs))
    by (apply IZR_le; nia).
  rewrite !plus_IZR.
  set (s := IZR (num_sns * cost_sensor_node costs)) in *.
  set (s' := IZR (num_sns' * cost_sensor_node costs)) in *.
  set (b := IZR (num_bgs * cost_gateway_buoy costs)) in *.
  set (b' := IZR (num_bgs' * cost_gateway_buoy costs)) in *.
  assert (s * rate_sensor_node rates <= s' * rate_sensor_node rates)
    by (apply Rmult_le_compat_r; assumption).
  assert (b * rate_gateway_buoy rates <= b' * rate_gateway_buoy rates)
    by (apply Rmult_le_compat_r; assumption).
  assert ((s * rate_sensor_node rates + b * rate_gateway_buoy rates
           + IZR (coastal_station_annual rates)) * IZR years
          <= (s' * rate_sensor_node rates + b' * rate_gateway_buoy rates
              + IZR (coastal_station_annual rates)) * IZR years)
    by (apply Rmult_le_compat_r; lra).
  lra.
Qed.

Lemma tco_monotone_witness :
  (0 <= cost_sensor_node EQUIPMENT_COSTS)%Z
  /\ (0 <= cost_gateway_buoy EQUIPMENT_COSTS)%Z
  /\ 0 <= rate_sensor_node OPEX_RATES
  /\ 0 <= rate_gateway_buoy OPEX_RATES
  /\ (0 <= 5)%Z /\ (9 <= 10)%Z /\ (2 <= 2)%Z
  /\ tco (calculate_tco EQUIPMENT_COSTS OPEX_RATES 9 2 5)
     <= tco (calculate_tco EQUIPMENT_COSTS OPEX_RATES 10 2 5).
Proof.
  assert (H1 : (0 <= cost_sensor_node EQUIPMENT_COSTS)%Z) by (cbn; lia).
  assert (H2 : (0 <= cost_gateway_buoy EQUIPMENT_COSTS)%Z) by (cbn; lia).
  assert (H3 : 0 <= rate_sensor_node OPEX_RATES) by (cbn; lra).
  assert (H4 : 0 <= rate_gateway_buoy OPEX_RATES) by (cbn; lra).
  repeat (split; [assumption || lia|]).
  apply (tco_monotone EQUIPMENT_COSTS OPEX_RATES 9 10 2 2 5 H1 H2 H3 H4); lia.
Defined.

End EconomicsFacts.


(** * More about the optimizer *)

Module OptimizerExtra.
Import Py Optimizer Notions Solutions.

(** ** Random construction *)

Section Construction.
Context {gen : Generator}.

Lemma repeatM_all {A} (m : Rand gen A) (P : A -> Prop) :
  (forall g, exists a g', m g = (Ok a, g') /\ P a) ->
  forall n g, exists l g',
    repeatM n m g = (Ok l, g') /\ List.length l = n /\ Forall P l.
Proof.
  intros Hm. induction n as [|n IH]; intros g; cbn [repeatM].
  - exists [], g. repeat split. constructor.
  - unfold bind at 1. destruct (Hm g) as (a & g1 & -> & Ha).
    unfold bind at 1. destruct (IH g1) as (l & g2 & -> & Hlen & Hall).
    exists (a :: l), g2. unfold ret. cbn [List.length].
    repeat split; [congruence | constructor; assumption].
Qed.

Lemma choice_bit (g : rng gen) :
  exists b g', choice [0%Z; 1%Z] g = (Ok b, g') /\ (b = 0%Z \/ b = 1%Z).
Proof.
  unfold choice. destruct (gen_randbelow gen _ g) as [i g'].
  exists (nth i [0%Z; 1%Z] 0%Z), g'. split; [reflexivity|].
  destruct i as [|[|[|i]]]; cbn; auto.
Qed.

Lemma create_sensor_shape (self : NetworkOptimizer) (g : rng gen) :
  exists node g',
    create_sensor self g = (Ok node, g')
    /\ node_type node = 0%Z /\ binary_flag node.
Proof.
  unfold create_sensor, bind, uniform, lift, ret.
  destruct (gen_uniform gen 0 _ g) as [angle g1].
  destruct (gen_uniform gen 0.1 _ g1) as [r g2].
  destruct (gen_uniform gen _ _ g2) as [d g3].
  destruct (choice_bit g3) as (b & g4 & -> & Hb).
  eexists _, _. repeat split. exact Hb.
Qed.

Lemma create_gateway_shape (self : NetworkOptimizer) (g : rng gen) :
  exists node g',
    create_gateway self g = (Ok node, g')
    /\ node_type node = 1%Z /\ depth node = 0 /\ binary_flag node.
Proof.
  unfold create_gateway, bind, uniform, lift, ret.
  destruct (gen_uniform gen 0 _ g) as [angle g1].
  destruct (gen_uniform gen 0.3 _ g1) as [r g2].
  destruct (choice_bit g2) as (b & g3 & -> & Hb).
  eexists _, _. repeat split. exact Hb.
Qed.

(** Whatever the generator draws, [_create_individual] succeeds and lays
    the individual out as [max_sns] sensor nodes followed by [max_bgs]
    gateway buoys at depth 0, every node with an activation flag of 0 or
    1; a node count that is not positive gives no node of that kind. *)
Theorem create_individual_layout (self : NetworkOptimizer) (g : rng gen) :
  exists sensors gateways g',
    _create_individual self g = (Ok (sensors ++ gateways), g')
    /\ List.length sensors = Z.to_nat (max_sns self)
    /\ List.length gateways = Z.to_nat (max_bgs self)
    /\ Forall (fun node => node_type node = 0%Z /\ binary_flag node) sensors
    /\ Forall (fun node => node_type node = 1%Z /\ depth node = 0
                           /\ binary_flag node) gateways.
Proof.
  unfold _create_individual. unfold bind at 1.
  destruct (repeatM_all (create_sensor self) _ (create_sensor_shape self)
              (Z.to_nat (max_sns self)) g) as (ss & g1 & -> & Hls & Hs).
  unfold bind at 1.
  destruct (repeatM_all (create_gateway self) _ (create_gateway_shape self)
              (Z.to_nat (max_bgs self)) g1) as (gs & g2 & -> & Hlg & Hg).
  exists ss, gs, g2. unfold ret. repeat split; assumption.
Qed.

Lemma create_individual_length (self : NetworkOptimizer) (g : rng gen) :
  exists individual g',
    _create_individual self g = (Ok individual, g')
    /\ List.length individual
       = (Z.to_nat (max_sns self) + Z.to_nat (max_bgs self))%nat.
Proof.
  unfold _create_individual. unfold bind at 1.
  destruct (repeatM_all (create_sensor self) _ (create_sensor_shape self)
              (Z.to_nat (max_sns self)) g) as (ss & g1 & -> & Hls & Hs).
  unfold bind at 1.
  destruct (repeatM_all (create_gateway self) _ (create_gateway_shape self)
              (Z.to_nat (max_bgs self)) g1) as (gs & g2 & -> & Hlg & Hg).
  exists (ss ++ gs), g2. unfold ret. split; [reflexivity|].
  rewrite length_app. congruence.
Qed.

(** The initial population has [n] individuals, each with as many nodes
    as the two node counts allow; a population size that is zero or
    negative silently gives an empty population. *)
Theorem population_shape (self : NetworkOptimizer) (n : Z) (g : rng gen) :
  exists pop g',
    population (_setup_deap self) n g = (Ok pop, g')
    /\ List.length pop = Z.to_nat n
    /\ Forall (fun individual =>
                 List.length individual
                 = (Z.to_nat (max_sns self) + Z.to_nat (max_bgs self))%nat)
              pop
    /\ ((n <= 0)%Z -> pop = []).
Proof.
  unfold population, _setup_deap. cbn [tb_individual].
  destruct (repeatM_all (_create_individual self) _
              (create_individual_length self) (Z.to_nat n) g)
    as (pop & g' & Hrun & Hlen & Hall).
  exists pop, g'. repeat split; try assumption.
  intros Hn. destruct pop; [reflexivity | cbn in Hlen; lia].
Qed.

Lemma offset_bound (c0 r L t bound : R) :
  Rabs r <= bound -> Rabs t <= 1 ->
  Rabs (c0 + r * L * t - c0) <= bound * Rabs L.
Proof.
  intros Hr Ht.
  replace (c0 + r * L * t - c0) with (r * L * t) by ring.
  rewrite !Rabs_mult.
  pose proof (Rabs_pos r). pose proof (Rabs_pos L). pose proof (Rabs_pos t).
  assert (Rabs r * Rabs L <= bound * Rabs L)
    by (apply Rmult_le_compat_r; assumption).
  assert (Rabs r * Rabs L * Rabs t <= Rabs r * Rabs L * 1)
    by (apply Rmult_le_compat_l; [nra | assumption]).
  lra.
Qed.

(** A node at most the fraction [reach] of the study radius away from the
    centre, in latitude and in longitude. *)
Let placed (self : NetworkOptimizer) (reach : R) (node : Node) : Prop :=
  Rabs (lat node - center_lat self) <= reach * Rabs (lat_range self)
  /\ Rabs (lon node - center_lon self) <= reach * Rabs (lon_range self).

Lemma create_sensor_placed (self : NetworkOptimizer) (g : rng gen) :
  LawfulReals gen ->
  exists node g',
    create_sensor self g = (Ok node, g')
    /\ node_type node = 0%Z
    /\ placed self 0.9 node
    /\ Rmin (Config.depth_min (Config.BATHYMETRY (config self)))
            (Config.depth_max (Config.BATHYMETRY (config self)))
       <= depth node
       <= Rmax (Config.depth_min (Config.BATHYMETRY (config self)))
               (Config.depth_max (Config.BATHYMETRY (config self))).
Proof.
  intros Hlaw. unfold create_sensor, bind, uniform, lift, ret.
  destruct (gen_uniform gen 0 _ g) as [angle g1].
  pose proof (uniform_between gen Hlaw 0.1 0.9 g1) as Hr.
  destruct (gen_uniform gen 0.1 _ g1) as [r g2].
  pose proof (uniform_between gen Hlaw
                (Config.depth_min (Config.BATHYMETRY (config self)))
                (Config.depth_max (Config.BATHYMETRY (config self))) g2) as Hd.
  destruct (gen_uniform gen _ _ g2) as [d g3].
  destruct (choice_bit g3) as (b & g4 & -> & _).
  cbn [fst] in Hr, Hd.
  rewrite Rmin_left, Rmax_right in Hr by lra.
  assert (Habs : Rabs r <= 0.9) by (apply Rabs_le; lra).
  eexists _, _. split; [reflexivity|]. cbn.
  split; [reflexivity|]. split; [split|exact Hd].
  - apply offset_bound; [exact Habs | apply Rabs_le, SIN_bound].
  - apply offset_bound; [exact Habs | apply Rabs_le, COS_bound].
Qed.

Lemma create_gateway_placed (self : NetworkOptimizer) (g : rng gen) :
  LawfulReals gen ->
  exists node g',
    create_gateway self g = (Ok node, g')
    /\ node_type node = 1%Z
    /\ placed self 0.8 node /\ depth node = 0.
Proof.
  intros Hlaw. unfold create_gateway, bind, uniform, lift, ret.
  destruct (gen_uniform gen 0 _ g) as [angle g1].
  pose proof (uniform_between gen Hlaw 0.3 0.8 g1) as Hr.
  destruct (gen_uniform gen 0.3 _ g1) as [r g2].
  destruct (choice_bit g2) as (b & g3 & -> & _).
  cbn [fst] in Hr. rewrite Rmin_left, Rmax_right in Hr by lra.
  assert (Habs : Rabs r <= 0.8) by (apply Rabs_le; lra).
  eexists _, _. split; [reflexivity|]. cbn.
  split; [reflexivity|]. split; [split|reflexivity].
  - apply offset_bound; [exact Habs | apply Rabs_le, SIN_bound].
  - apply offset_bound; [exact Habs | apply Rabs_le, COS_bound].
Qed.

(** With a generator whose [uniform] draws fall between their bounds, a
    new individual is [max_sns] nodes of type 0 followed by [max_bgs]
    nodes of type 1; the nodes of type 0 lie within 0.9 of the study
    radius of the centre (in degrees of latitude and of longitude) at a
    depth between the two bathymetric bounds, and the nodes of type 1
    within 0.8 of the radius at depth 0.  The same holds read off the
    type tag of each node of the individual. *)
Theorem create_individual_in_area (self : NetworkOptimizer) (g : rng gen) :
  LawfulReals gen ->
  exists sensors gateways g',
    _create_individual self g = (Ok (sensors ++ gateways), g')
    /\ List.length sensors = Z.to_nat (max_sns self)
    /\ List.length gateways = Z.to_nat (max_bgs self)
    /\ Forall
         (fun node =>
            node_type node = 0%Z
            /\ Rabs (lat node - center_lat self)
               <= 0.9 * Rabs (lat_range self)
            /\ Rabs (lon node - center_lon self)
               <= 0.9 * Rabs (lon_range self)
            /\ Rmin (Config.depth_min (Config.BATHYMETRY (config self)))
                    (Config.depth_max (Config.BATHYMETRY (config self)))
               <= depth node
               <= Rmax (Config.depth_min (Config.BATHYMETRY (config self)))
                       (Config.depth_max (Config.BATHYMETRY (config self))))
         sensors
    /\ Forall
         (fun node =>
            node_type node = 1%Z
            /\ Rabs (lat node - center_lat self)
               <= 0.8 * Rabs (lat_range self)
            /\ Rabs (lon node - center_lon self)
               <= 0.8 * Rabs (lon_range self)
            /\ depth node = 0)
         gateways
    /\ Forall
         (fun node =>
            (node_type node = 0%Z \/ node_type node = 1%Z)
            /\ (node_type node = 1%Z ->
                Rabs (lat node - center_lat self)
                <= 0.8 * Rabs (lat_range self)
                /\ Rabs (lon node - center_lon self)
                   <= 0.8 * Rabs (lon_range self)
                /\ depth node = 0)
            /\ (node_type node = 0%Z ->
                Rabs (lat node - center_lat self)
                <= 0.9 * Rabs (lat_range self)
                /\ Rabs (lon node - center_lon self)
                   <= 0.9 * Rabs (lon_range self)
                /\ Rmin (Config.depth_min (Config.BATHYMETRY (config self)))
                        (Config.depth_max (Config.BATHYMETRY (config self)))
                   <= depth node
                   <= Rmax
                        (Config.depth_min (Config.BATHYMETRY (config self)))
                        (Config.depth_max
                           (Config.BATHYMETRY (config self)))))
         (sensors ++ gateways).
Proof.
  intros Hlaw. unfold _create_individual. unfold bind at 1.
  destruct (repeatM_all (create_sensor self) _
              (fun g0 => create_sensor_placed self g0 Hlaw)
              (Z.to_nat (max_sns self)) g) as (ss & g1 & -> & Hls & Hs).
  unfold bind at 1.
  destruct (repeatM_all (create_gateway self) _
              (fun g0 => create_gateway_placed self g0 Hlaw)
              (Z.to_nat (max_bgs self)) g1) as (gs & g2 & -> & Hlg & Hg).
  exists ss, gs, g2. unfold ret. split; [reflexivity|].
  split; [exact Hls|]. split; [exact Hlg|].
  assert (Hss : Forall
            (fun node =>
               node_type node = 0%Z
               /\ Rabs (lat node - center_lat self)
                  <= 0.9 * Rabs (lat_range self)
               /\ Rabs (lon node - center_lon self)
                  <= 0.9 * Rabs (lon_range self)
               /\ Rmin (Config.depth_min (Config.BATHYMETRY (config self)))
                       (Config.depth_max (Config.BATHYMETRY (config self)))
                  <= depth node
                  <= Rmax
                       (Config.depth_min (Config.BATHYMETRY (config self)))
                       (Config.depth_max (Config.BATHYMETRY (config self))))
            ss)
    by (eapply Forall_impl; [|exact Hs]; cbv beta; unfold placed; tauto).
  assert (Hgs : Forall
            (fun node =>
               node_type node = 1%Z
               /\ Rabs (lat node - center_lat self)
                  <= 0.8 * Rabs (lat_range self)
               /\ Rabs (lon node - center_lon self)
                  <= 0.8 * Rabs (lon_range self)
               /\ depth node = 0)
            gs)
    by (eapply Forall_impl; [|exact Hg]; cbv beta; unfold placed; tauto).
  split; [exact Hss|]. split; [exact Hgs|].
  apply Forall_app. split.
  - eapply Forall_impl; [|exact Hss]. cbv beta.
    intros node (Ht & Hrest). split; [left; exact Ht|].
    split; [intros H1; rewrite Ht in H1; discriminate | intros _; exact Hrest].
  - eapply Forall_impl; [|exact Hgs]. cbv beta.
    intros node (Ht & Hrest). split; [right; exact Ht|].
    split; [intros _; exact Hrest | intros H0; rewrite Ht in H0; discriminate].
Qed.

End Construction.

Lemma low_generator_reals : LawfulReals Samples.low_generator.
Proof.
  split; cbn; intros.
  - lra.
  - split; [apply Rmin_l | apply Rmax_l].
Qed.

Lemma create_individual_in_area_witness :
  LawfulReals Samples.low_generator
  /\ exists individual g',
       _create_individual (gen := Samples.low_generator)
         (Samples.optimizer_with [Samples.poi_center]) 0%nat
       = (Ok individual, g').
Proof.
  split; [exact low_generator_reals|].
  destruct (create_individual_in_area (gen := Samples.low_generator)
              (Samples.optimizer_with [Samples.poi_center]) 0%nat
              low_generator_reals) as (ss & gs & g' & H & _).
  exists (ss ++ gs), g'. exact H.
Defined.

(** ** Crossover *)

Lemma slice_index_le (len : nat) (i : Z) : (slice_index len i <= len)%nat.
Proof. unfold slice_index. destruct (i <? 0)%Z; lia. Qed.

Lemma window_ordered (n : nat) (c1 c2 : Z) :
  (window_start n c1 c2 <= window_stop n c1 c2 <= n)%nat.
Proof.
  unfold window_stop, window_start.
  pose proof (slice_index_le n (Z.min c1 c2)).
  pose proof (slice_index_le n (Z.max c1 c2)). lia.
Qed.

(** [crossover_at] is two splices over the same window. *)
Lemma crossover_at_splices (ind1 ind2 : Individual) (c1 c2 : Z) :
  List.length ind1 = List.length ind2 ->
  crossover_at c1 c2 ind1 ind2
  = (splice ind1 ind2 (window_start (List.length ind1) c1 c2)
                      (window_stop (List.length ind1) c1 c2),
     splice ind2 ind1 (window_start (List.length ind1) c1 c2)
                      (window_stop (List.length ind1) c1 c2)).
Proof.
  intros Hlen. unfold crossover_at, splice, window_stop, window_start.
  assert (Hcuts : (if (c1 >? c2)%Z then (c2, c1) else (c1, c2))
                  = (Z.min c1 c2, Z.max c1 c2)).
  { destruct (Z.gtb_spec c1 c2); f_equal; lia. }
  rewrite Hcuts. unfold slice_assign, slice. cbv zeta. rewrite <- Hlen.
  set (s := slice_index (List.length ind1) (Z.min c1 c2)).
  set (t := slice_index (List.length ind1) (Z.max c1 c2)).
  replace (Nat.max s t - s)%nat with (t - s)%nat by lia.
  reflexivity.
Qed.

Lemma splice_length {A} (l1 l2 : list A) (s e : nat) :
  List.length l1 = List.length l2 -> (s <= e <= List.length l1)%nat ->
  List.length (splice l1 l2 s e) = List.length l1.
Proof.
  intros Hlen Hse. unfold splice.
  rewrite !length_app, !length_firstn, !length_skipn. lia.
Qed.

Lemma splice_nth_error {A} (l1 l2 : list A) (s e k : nat) :
  List.length l1 = List.length l2 -> (s <= e <= List.length l1)%nat ->
  nth_error (splice l1 l2 s e) k
  = if ((s <=? k) && (k <? e))%nat then nth_error l2 k else nth_error l1 k.
Proof.
  intros Hlen Hse. unfold splice.
  assert (Hf : List.length (firstn s l1) = s)
    by (rewrite length_firstn; lia).
  assert (Hm : List.length (firstn (e - s) (skipn s l2)) = (e - s)%nat)
    by (rewrite length_firstn, length_skipn; lia).
  destruct (Nat.leb_spec s k) as [Hsk|Hks]; cbn [andb].
  - rewrite nth_error_app2 by lia. rewrite Hf.
    destruct (Nat.ltb_spec k e) as [Hke|Hek].
    + rewrite nth_error_app1 by lia.
      rewrite nth_error_firstn, nth_error_skipn.
      destruct (Nat.ltb_spec (k - s) (e - s)); [|lia].
      f_equal. lia.
    + rewrite nth_error_app2 by lia. rewrite Hm, nth_error_skipn.
      f_equal. lia.
  - rewrite nth_error_app1 by lia. rewrite nth_error_firstn.
    destruct (Nat.ltb_spec k s); [reflexivity | lia].
Qed.

Lemma crossover_at_nth (ind1 ind2 : Individual) (c1 c2 : Z) (k : nat) :
  List.length ind1 = List.length ind2 ->
  nth_error (fst (crossover_at c1 c2 ind1 ind2)) k
  = (if exchanged (List.length ind1) c1 c2 k
     then nth_error ind2 k else nth_error ind1 k)
  /\ nth_error (snd (crossover_at c1 c2 ind1 ind2)) k
     = (if exchanged (List.length ind1) c1 c2 k
        then nth_error ind1 k else nth_error ind2 k).
Proof.
  intros Hlen. rewrite (crossover_at_splices _ _ _ _ Hlen). cbn [fst snd].
  pose proof (window_ordered (List.length ind1) c1 c2) as Hw.
  unfold exchanged. split; apply splice_nth_error; congruence || lia.
Qed.

(** Crossover never moves a node to another position: at every position
    the first offspring holds the node of the second parent inside the
    window between the two cut points and the node of the first parent
    outside it, and the second offspring the other way round.  This holds
    for all cut points, in either order. *)
Theorem crossover_positions (ind1 ind2 : Individual) (c1 c2 : Z) (k : nat) :
  List.length ind1 = List.length ind2 ->
  nth_error (fst (crossover_at c1 c2 ind1 ind2)) k
  = (if exchanged (List.length ind1) c1 c2 k
     then nth_error ind2 k else nth_error ind1 k)
  /\ nth_error (snd (crossover_at c1 c2 ind1 ind2)) k
     = (if exchanged (List.length ind1) c1 c2 k
        then nth_error ind1 k else nth_error ind2 k).
Proof. exact (crossover_at_nth ind1 ind2 c1 c2 k). Qed.

Lemma crossover_positions_witness :
  List.length [Samples.sensor_on; Samples.sensor_off; Samples.gateway_on]
  = List.length [Samples.sensor_off; Samples.sensor_on; Samples.gateway_off]
  /\ nth_error
       (fst (crossover_at 1 2
               [Samples.sensor_on; Samples.sensor_off; Samples.gateway_on]
               [Samples.sensor_off; Samples.sensor_on; Samples.gateway_off]))
       1
     = Some Samples.sensor_on.
Proof.
  split; [reflexivity|].
  exact (proj1 (crossover_positions
                  [Samples.sensor_on; Samples.sensor_off; Samples.gateway_on]
                  [Samples.sensor_off; Samples.sensor_on; Samples.gateway_off]
                  1 2 1 eq_refl)).
Defined.

Lemma crossover_lengths (ind1 ind2 : Individual) (c1 c2 : Z) :
  List.length ind1 = List.length ind2 ->
  List.length (fst (crossover_at c1 c2 ind1 ind2)) = List.length ind1
  /\ List.length (snd (crossover_at c1 c2 ind1 ind2)) = List.length ind1.
Proof.
  intros Hlen. rewrite (crossover_at_splices _ _ _ _ Hlen). cbn [fst snd].
  pose proof (window_ordered (List.length ind1) c1 c2) as Hw.
  split; rewrite splice_length; congruence || lia.
Qed.

(** Crossing the two offspring again at the same cut points gives the two
    parents back. *)
Theorem crossover_twice (ind1 ind2 : Individual) (c1 c2 : Z) :
  List.length ind1 = List.length ind2 ->
  crossover_at c1 c2 (fst (crossover_at c1 c2 ind1 ind2))
                     (snd (crossover_at c1 c2 ind1 ind2))
  = (ind1, ind2).
Proof.
  intros Hlen.
  destruct (crossover_lengths ind1 ind2 c1 c2 Hlen) as [L1 L2].
  rewrite (crossover_at_splices (fst _) (snd _)) by congruence.
  rewrite L1. rewrite (crossover_at_splices _ _ _ _ Hlen). cbn [fst snd].
  pose proof (window_ordered (List.length ind1) c1 c2) as Hw.
  set (s := window_start (List.length ind1) c1 c2) in *.
  set (e := window_stop (List.length ind1) c1 c2) in *.
  assert (La : List.length (splice ind1 ind2 s e) = List.length ind1)
    by (apply splice_length; assumption).
  assert (Lb : List.length (splice ind2 ind1 s e) = List.length ind1)
    by (rewrite splice_length; congruence || lia).
  apply f_equal2; apply nth_error_ext; intros k;
    rewrite splice_nth_error by (congruence || lia);
    rewrite !splice_nth_error by (congruence || lia);
    destruct ((s <=? k)%nat && (k <? e)%nat); reflexivity.
Qed.

Lemma crossover_twice_witness :
  List.length [Samples.sensor_on; Samples.sensor_off; Samples.gateway_on]
  = List.length [Samples.sensor_off; Samples.sensor_on; Samples.gateway_off]
  /\ crossover_at 2 1
       (fst (crossover_at 2 1
               [Samples.sensor_on; Samples.sensor_off; Samples.gateway_on]
               [Samples.sensor_off; Samples.sensor_on; Samples.gateway_off]))
       (snd (crossover_at 2 1
               [Samples.sensor_on; Samples.sensor_off; Samples.gateway_on]
               [Samples.sensor_off; Samples.sensor_on; Samples.gateway_off]))
     = ([Samples.sensor_on; Samples.sensor_off; Samples.gateway_on],
        [Samples.sensor_off; Samples.sensor_on; Samples.gateway_off]).
Proof.
  split; [reflexivity|].
  exact (crossover_twice
           [Samples.sensor_on; Samples.sensor_off; Samples.gateway_on]
           [Samples.sensor_off; Samples.sensor_on; Samples.gateway_off]
           2 1 eq_refl).
Defined.

(** When the two parents have the same type tag at every position, as two
    individuals made by [_create_individual] under the same settings do,
    both offspring keep that layout of sensors and gateways. *)
Theorem crossover_keeps_roles (ind1 ind2 : Individual) (c1 c2 : Z) :
  map node_type ind1 = map node_type ind2 ->
  map node_type (fst (crossover_at c1 c2 ind1 ind2)) = map node_type ind1
  /\ map node_type (snd (crossover_at c1 c2 ind1 ind2)) = map node_type ind1.
Proof.
  intros Hroles.
  assert (Hlen : List.length ind1 = List.length ind2)
    by (rewrite <- (length_map node_type ind1), Hroles; apply length_map).
  assert (Hk : forall k, option_map node_type (nth_error ind2 k)
                         = option_map node_type (nth_error ind1 k))
    by (intros k; rewrite <- !nth_error_map, Hroles; reflexivity).
  split; apply nth_error_ext; intros k; rewrite !nth_error_map;
    [rewrite (proj1 (crossover_at_nth ind1 ind2 c1 c2 k Hlen))
    |rewrite (proj2 (crossover_at_nth ind1 ind2 c1 c2 k Hlen))];
    destruct (exchanged _ _ _ _); auto.
Qed.

Lemma crossover_keeps_roles_witness :
  map node_type [Samples.sensor_on; Samples.gateway_on]
  = map node_type [Samples.sensor_off; Samples.gateway_off]
  /\ map node_type
       (fst (crossover_at 1 1 [Samples.sensor_on; Samples.gateway_on]
               [Samples.sensor_off; Samples.gateway_off]))
     = map node_type [Samples.sensor_on; Samples.gateway_on].
Proof.
  split; [reflexivity|].
  exact (proj1 (crossover_keeps_roles
                  [Samples.sensor_on; Samples.gateway_on]
                  [Samples.sensor_off; Samples.gateway_off] 1 1 eq_refl)).
Defined.

(** [_crossover] needs two nodes: on an individual of fewer than two nodes
    it raises [ValueError] (the range of cut points is empty) and draws
    nothing; on a longer one it performs the exchange at the two points
    it draws, for every generator. *)
Theorem crossover_needs_two_nodes (gen : Generator) (ind1 ind2 : Individual)
  (g : rng gen) :
  ((List.length ind1 < 2)%nat ->
   _crossover ind1 ind2 g = (Raise ValueError, g))
  /\ ((2 <= List.length ind1)%nat ->
      exists c1 c2 g',
        _crossover ind1 ind2 g = (Ok (crossover_at c1 c2 ind1 ind2), g')).
Proof.
  unfold _crossover, bind, randint, lift, ret. split; intros Hn.
  - destruct (Z.ltb_spec (Z.of_nat (List.length ind1) - 1) 1); [reflexivity|lia].
  - destruct (Z.ltb_spec (Z.of_nat (List.length ind1) - 1) 1); [lia|].
    destruct (gen_randint gen 1 _ g) as [c1 g1].
    destruct (gen_randint gen 1 _ g1) as [c2 g2].
    exists c1, c2, g2. reflexivity.
Qed.

(** ** Mutation *)

Lemma clip_inside (x lo hi : R) : lo <= hi -> lo <= clip x lo hi <= hi.
Proof.
  intros H. unfold clip. split.
  - apply Rmin_glb; [apply Rmax_r | exact H].
  - apply Rmin_r.
Qed.

Lemma mutate_node_cases (gen : Generator) (self : NetworkOptimizer)
  (node : Node) (g : rng gen) :
  exists node' g',
    mutate_node self node g = (Ok node', g') /\ mutated self node node'.
Proof.
  unfold mutate_node, bind, random, gauss, choice, lift, ret, mutated.
  destruct (gen_random gen g) as [u g1].
  destruct (Rlt_bool u (mut_rate self)).
  - destruct (gen_randbelow gen _ g1) as [i g2].
    destruct (String.eqb _ "position").
    + destruct (gen_gauss gen 0 _ g2) as [d_lat g3].
      destruct (gen_gauss gen 0 _ g3) as [d_lon g4].
      eexists _, _. split; [reflexivity|]. cbn.
      repeat split. right. right. split; [reflexivity|].
      intros Hlat Hlon. split; apply clip_inside; lra.
    + eexists _, _. split; [reflexivity|]. cbn.
      repeat split. right. left. repeat split.
  - eexists _, _. split; [reflexivity|]. repeat split. now left.
Qed.

Lemma mutate_all_cases (gen : Generator) (self : NetworkOptimizer)
  (individual : Individual) (g : rng gen) :
  exists individual' g',
    _mutate self individual g = (Ok individual', g')
    /\ Forall2 (mutated self) individual individual'.
Proof.
  unfold _mutate. revert g.
  induction individual as [|node rest IH]; intros g; cbn [mapM].
  - exists [], g. split; [reflexivity | constructor].
  - unfold bind at 1.
    destruct (mutate_node_cases gen self node g) as (node' & g1 & -> & Hn).
    unfold bind at 1. destruct (IH g1) as (rest' & g2 & -> & Hrest).
    exists (node' :: rest'), g2. split; [reflexivity|].
    constructor; assumption.
Qed.

(** Whatever the generator draws, mutation leaves each node as it is, or
    flips its activation flag and nothing else, or moves it, and a moved
    node ends inside the rectangle of the study area (when the two
    half-widths of the rectangle are not negative). *)
Theorem mutate_cases (gen : Generator) (self : NetworkOptimizer)
  (individual : Individual) (g : rng gen) :
  exists individual' g',
    _mutate self individual g = (Ok individual', g')
    /\ Forall2 (mutated self) individual individual'.
Proof. exact (mutate_all_cases gen self individual g). Qed.

(** Mutation keeps an individual well formed: if every activation flag is
    0 or 1 and every node lies in the rectangle of the study area, the
    same holds after mutation, whatever the generator draws. *)
Theorem mutate_keeps_well_formed (gen : Generator) (self : NetworkOptimizer)
  (individual : Individual) (g : rng gen) :
  0 <= lat_range self -> 0 <= lon_range self ->
  Forall (fun node => binary_flag node /\ in_bounding_box self node)
         individual ->
  exists individual' g',
    _mutate self individual g = (Ok individual', g')
    /\ Forall (fun node => binary_flag node /\ in_bounding_box self node)
              individual'.
Proof.
  intros Hlat Hlon Hwf.
  destruct (mutate_all_cases gen self individual g) as (ind' & g' & Hrun & Hm).
  exists ind', g'. split; [exact Hrun|]. clear Hrun.
  induction Hm as [|node node' rest rest' Hn _ IH]; [constructor|].
  inversion Hwf as [|? ? [Hb Hbox] Hrest]; subst.
  constructor; [|apply IH; exact Hrest].
  destruct Hn as (_ & _ & [->|[(Ha & Hla & Hlo)|(Ha & Hin)]]).
  - split; assumption.
  - split.
    + unfold binary_flag in *. rewrite Ha. lia.
    + unfold in_bounding_box in *. rewrite Hla, Hlo. exact Hbox.
  - split; [unfold binary_flag in *; rewrite Ha; exact Hb | auto].
Qed.

Lemma mutate_keeps_well_formed_witness :
  0 <= lat_range (Samples.optimizer_with [])
  /\ 0 <= lon_range (Samples.optimizer_with [])
  /\ Forall (fun node => binary_flag node
                         /\ in_bounding_box (Samples.optimizer_with []) node)
            [Samples.sensor_on; Samples.gateway_off]
  /\ exists individual' g',
       _mutate (gen := Samples.low_generator) (Samples.optimizer_with [])
         [Samples.sensor_on; Samples.gateway_off] 0%nat
       = (Ok individual', g').
Proof.
  assert (Hcos : cos (Models.radians (Rabs 0)) = 1).
  { unfold Models.radians. rewrite Rabs_R0.
    replace (0 * PI / 180) with 0 by field. apply cos_0. }
  assert (Hlat : 0 <= lat_range (Samples.optimizer_with []))
    by (unfold lat_range; cbn; lra).
  assert (Hlon : 0 <= lon_range (Samples.optimizer_with [])).
  { unfold lon_range. cbn [Samples.optimizer_with center_lat area_radius_km
                           config Config.LAT_KM_PER_DEGREE Config.shipped].
    rewrite Hcos. lra. }
  assert (Hbox : forall node, lat node = 0 -> lon node = 0 ->
                   in_bounding_box (Samples.optimizer_with []) node).
  { intros node Hla Hlo. unfold in_bounding_box. rewrite Hla, Hlo.
    cbn [Samples.optimizer_with center_lat center_lon]. lra. }
  assert (Hwf : Forall (fun node => binary_flag node
                          /\ in_bounding_box (Samples.optimizer_with []) node)
                  [Samples.sensor_on; Samples.gateway_off]).
  { constructor; [split; [right; reflexivity | apply Hbox; reflexivity]|].
    constructor; [split; [left; reflexivity | apply Hbox; reflexivity]|].
    constructor. }
  split; [exact Hlat | split; [exact Hlon | split; [exact Hwf|]]].
  destruct (mutate_keeps_well_formed Samples.low_generator
              (Samples.optimizer_with [])
              [Samples.sensor_on; Samples.gateway_off] 0%nat Hlat Hlon Hwf)
    as (ind' & g' & H & _).
  exists ind', g'. exact H.
Defined.

(** With a mutation rate of zero or less, and a generator whose
    [random()] is never negative, mutation changes nothing. *)
Theorem mutate_rate_zero (gen : Generator) (self : NetworkOptimizer)
  (individual : Individual) (g : rng gen) :
  LawfulReals gen -> mut_rate self <= 0 ->
  exists g', _mutate self individual g = (Ok individual, g').
Proof.
  intros Hlaw Hrate. unfold _mutate. revert g.
  induction individual as [|node rest IH]; intros g; cbn [mapM].
  - exists g. reflexivity.
  - unfold bind at 1. unfold mutate_node at 1, bind at 1, random, lift.
    pose proof (random_in_unit gen Hlaw g) as Hu.
    destruct (gen_random gen g) as [u g1]. cbn [fst] in Hu.
    assert (Hno : Rlt_bool u (mut_rate self) = false)
      by (unfold Rlt_bool; destruct (Rlt_dec u (mut_rate self)); [lra | reflexivity]).
    rewrite Hno. unfold ret at 1. unfold bind at 1.
    destruct (IH g1) as (g2 & ->). exists g2. reflexivity.
Qed.

Lemma mutate_rate_zero_witness :
  LawfulReals Samples.low_generator
  /\ mut_rate (MoreSamples.optimizer_at_rate 0) <= 0
  /\ exists g',
       _mutate (gen := Samples.low_generator)
         (MoreSamples.optimizer_at_rate 0) [Samples.sensor_on] 0%nat
       = (Ok [Samples.sensor_on], g').
Proof.
  assert (H : mut_rate (MoreSamples.optimizer_at_rate 0) <= 0) by (cbn; lra).
  split; [exact low_generator_reals | split; [exact H|]].
  exact (mutate_rate_zero Samples.low_generator
           (MoreSamples.optimizer_at_rate 0) [Samples.sensor_on] 0%nat
           low_generator_reals H).
Defined.

(** ** Fitness *)

Section Coverage.
Variable active_sns : list Node.

Let step (covered : set Z) (poi : Poi) : set Z :=
  if within_reach active_sns poi
  then set_add Z.eq_dec (poi_id poi) covered
  else covered.

Lemma covered_fold (ps : list Poi) :
  forall acc,
    NoDup acc ->
    NoDup (fold_left step ps acc)
    /\ forall z, In z (fold_left step ps acc)
                 <-> In z acc
                     \/ In z (map poi_id (filter (within_reach active_sns) ps)).
Proof.
  induction ps as [|poi ps IH]; intros acc Hnd; cbn [fold_left filter map].
  - split; [exact Hnd | intros z; cbn; tauto].
  - unfold step at 2 4. destruct (within_reach active_sns poi).
    + destruct (IH _ (set_add_nodup Z.eq_dec (poi_id poi) Hnd)) as [H1 H2].
      split; [exact H1|]. intros z. rewrite H2, set_add_iff. cbn [map In].
      intuition congruence.
    + apply IH. exact Hnd.
Qed.

End Coverage.

Lemma covered_pois_spec (self : NetworkOptimizer) (active_sns : list Node) :
  NoDup (covered_pois self active_sns)
  /\ forall z, In z (covered_pois self active_sns)
               <-> In z (map poi_id
                           (filter (within_reach active_sns) (pois self))).
Proof.
  destruct (covered_fold active_sns (pois self) [] (NoDup_nil Z)) as [H1 H2].
  split; [exact H1|]. intros z. rewrite (H2 z). cbn [In]. tauto.
Qed.

Lemma covered_pois_size (self : NetworkOptimizer)
  (active_sns : list Node) :
  List.length (covered_pois self active_sns)
  = List.length
      (nodup Z.eq_dec
         (map poi_id (filter (within_reach active_sns) (pois self))))
  /\ (NoDup (map poi_id (pois self)) ->
      List.length (covered_pois self active_sns)
      = List.length (filter (within_reach active_sns) (pois self))).
Proof.
  destruct (covered_pois_spec self active_sns) as [Hnd Hin].
  assert (Hcount : List.length (covered_pois self active_sns)
                   = List.length
                       (nodup Z.eq_dec
                          (map poi_id
                             (filter (within_reach active_sns) (pois self))))).
  { apply Permutation_length, NoDup_Permutation;
      [exact Hnd | apply NoDup_nodup|].
    intros z. rewrite nodup_In. apply Hin. }
  split; [exact Hcount|]. intros Hids. rewrite Hcount.
  rewrite nodup_fixed_point; [apply length_map|].
  clear Hcount Hnd Hin. induction (pois self) as [|poi ps IH]; [constructor|].
  cbn [map filter] in *. inversion Hids as [|? ? Hnotin Hrest]; subst.
  destruct (within_reach active_sns poi); [|apply IH; exact Hrest].
  cbn [map]. constructor; [|apply IH; exact Hrest].
  intros Hc. apply Hnotin. apply in_map_iff in Hc as (q & Hq & Hqin).
  apply in_map_iff. exists q. split; [exact Hq|].
  apply filter_In in Hqin. tauto.
Qed.

(** The set of covered points holds one entry per identifier: its size is
    the number of distinct identifiers among the points of interest with
    an active sensor within their radius.  Points that share an
    identifier count once; when all identifiers differ, the size is the
    number of such points. *)
Theorem covered_pois_count (self : NetworkOptimizer)
  (active_sns : list Node) :
  List.length (covered_pois self active_sns)
  = List.length
      (nodup Z.eq_dec
         (map poi_id (filter (within_reach active_sns) (pois self))))
  /\ (NoDup (map poi_id (pois self)) ->
      List.length (covered_pois self active_sns)
      = List.length (filter (within_reach active_sns) (pois self))).
Proof. exact (covered_pois_size self active_sns). Qed.

Lemma covered_pois_at_most (self : NetworkOptimizer)
  (active_sns : list Node) :
  (List.length (covered_pois self active_sns) <= List.length (pois self))%nat.
Proof.
  destruct (covered_pois_spec self active_sns) as [Hnd Hin].
  transitivity (List.length
                  (map poi_id (filter (within_reach active_sns) (pois self)))).
  - apply NoDup_incl_length; [exact Hnd|]. intros z Hz. apply Hin. exact Hz.
  - rewrite length_map. apply filter_length_le.
Qed.

Lemma evaluate_outcome_cases (self : NetworkOptimizer)
  (individual : Individual) :
  match _evaluate self individual with
  | Ok (cost, coverage) => 0 <= coverage <= 100
  | Raise e => e = ZeroDivisionError /\ pois self = []
  end.
Proof.
  destruct (List.length (filter is_active_sn individual)) as [|ns] eqn:Es.
  { rewrite OptimizerFacts.evaluate_penalty by (now left). lra. }
  destruct (List.length (filter is_active_bg individual)) as [|nb] eqn:Eb.
  { rewrite OptimizerFacts.evaluate_penalty by (now right). lra. }
  destruct (pois self) as [|poi ps] eqn:Ep.
  { rewrite OptimizerFacts.evaluate_divides_by_zero by (assumption || lia).
    split; reflexivity. }
  rewrite OptimizerFacts.evaluate_regular by (lia || congruence).
  pose proof (covered_pois_at_most self (filter is_active_sn individual)) as Hle.
  rewrite Ep in *.
  set (covered := List.length (covered_pois self _)) in *.
  assert (Hpos : 0 < INR (List.length (poi :: ps)))
    by (apply lt_0_INR; cbn; lia).
  assert (H0 : 0 <= INR covered) by apply pos_INR.
  assert (H1 : INR covered <= INR (List.length (poi :: ps)))
    by (apply le_INR; exact Hle).
  assert (Hq : 0 <= INR covered / INR (List.length (poi :: ps)) <= 1).
  { split.
    - apply Rle_mult_inv_pos; assumption.
    - apply Rmult_le_reg_r with (INR (List.length (poi :: ps))); [exact Hpos|].
      unfold Rdiv. rewrite Rmult_assoc, Rinv_l by lra. lra. }
  destruct (_check_connectivity self _ _); lra.
Qed.

(** Every outcome of the evaluator: either a fitness pair whose coverage
    lies between 0 and 100, or [ZeroDivisionError], and that only for an
    optimizer without any point of interest. *)
Theorem evaluate_outcomes (self : NetworkOptimizer) (individual : Individual) :
  match _evaluate self individual with
  | Ok (cost, coverage) => 0 <= coverage <= 100
  | Raise e => e = ZeroDivisionError /\ pois self = []
  end.
Proof. exact (evaluate_outcome_cases self individual). Qed.

Lemma filter_within {A} (f g : A -> bool) (l : list A) :
  (forall x, f x = true -> g x = true) ->
  filter f (filter g l) = filter f l.
Proof.
  intros Hfg. induction l as [|a l IH]; [reflexivity|]. cbn [filter].
  destruct (g a) eqn:Eg; cbn [filter].
  - rewrite IH. reflexivity.
  - destruct (f a) eqn:Ef; [|exact IH].
    apply Hfg in Ef. congruence.
Qed.

(** An individual is judged by its active nodes alone: removing the
    inactive nodes changes nothing in the evaluation. *)
Theorem evaluate_ignores_inactive (self : NetworkOptimizer)
  (individual : Individual) :
  _evaluate self (filter (fun node => (active node =? 1)%Z) individual)
  = _evaluate self individual.
Proof.
  unfold _evaluate.
  rewrite !(filter_within _ (fun node => (active node =? 1)%Z));
    [reflexivity | |];
    intros node H; apply andb_true_iff in H; tauto.
Qed.

Lemma near_nodes (u v : Node) :
  lat u = lat v -> lon u = lon v -> node_distance u v = 0.
Proof.
  intros Hla Hlo. unfold node_distance. rewrite Hla, Hlo.
  apply ModelsExtra.haversine_distance_zero.
Qed.

Lemma sample_link_feasible (range_m : R) :
  0 <= range_m ->
  _check_connectivity (MoreSamples.optimizer_at_range range_m)
    [Samples.sensor_on] [Samples.gateway_on] = true.
Proof.
  intros Hr. apply OptimizerFacts.check_connectivity_feasible.
  - repeat constructor.
  - repeat constructor.
  - apply OptimizerFacts.star_feasible. constructor; [|constructor].
    unfold in_range. rewrite near_nodes by reflexivity. exact Hr.
Qed.

(** When the identifiers of the points of interest are all different,
    every point has an active sensor within its radius and the network is
    connected, the evaluator returns the plain cost and a coverage of
    exactly 100 as soon as there is a point of interest; with no point
    of interest at all, where these conditions hold of no point, it
    raises [ZeroDivisionError]. *)
Theorem evaluate_full_coverage (self : NetworkOptimizer)
  (individual : Individual) :
  let sns := filter is_active_sn individual in
  let bgs := filter is_active_bg individual in
  let costs := Config.RELATIVE_COSTS (config self) in
  (1 <= List.length sns)%nat -> (1 <= List.length bgs)%nat ->
  NoDup (map poi_id (pois self)) ->
  forallb (within_reach sns) (pois self) = true ->
  _check_connectivity self sns bgs = true ->
  _evaluate self individual
  = match pois self with
    | [] => Raise ZeroDivisionError
    | _ :: _ =>
        Ok (INR (List.length sns) * IZR (Config.sensor_node costs)
            + INR (List.length bgs) * IZR (Config.gateway_buoy costs),
            100)
    end.
Proof.
  intros sns bgs costs Hs Hb Hids Hall Hconn.
  destruct (pois self) as [|poi rest] eqn:Ep.
  - apply OptimizerFacts.evaluate_divides_by_zero; assumption.
  - assert (Hp : pois self <> []) by (rewrite Ep; discriminate).
    rewrite OptimizerFacts.evaluate_regular by assumption.
    fold sns bgs costs. rewrite Hconn.
    rewrite <- Ep in Hids, Hall.
    rewrite (proj2 (covered_pois_size self sns) Hids).
    rewrite (forallb_filter_id _ _ Hall).
    assert (Hpos : INR (List.length (pois self)) <> 0).
    { apply not_0_INR. rewrite Ep. discriminate. }
    do 2 f_equal. field. exact Hpos.
Qed.

Lemma evaluate_full_coverage_witness :
  (1 <= List.length
          (filter is_active_sn [Samples.sensor_on; Samples.gateway_on]))%nat
  /\ (1 <= List.length
             (filter is_active_bg [Samples.sensor_on; Samples.gateway_on]))%nat
  /\ NoDup (map poi_id (pois (MoreSamples.optimizer_at_range 1000)))
  /\ snd (match _evaluate (MoreSamples.optimizer_at_range 1000)
                  [Samples.sensor_on; Samples.gateway_on] with
          | Ok fitness => fitness
          | Raise _ => (0, 0)
          end) = 100.
Proof.
  assert (H1 : (1 <= List.length
                  (filter is_active_sn [Samples.sensor_on; Samples.gateway_on]))%nat)
    by (cbn; lia).
  assert (H2 : (1 <= List.length
                  (filter is_active_bg [Samples.sensor_on; Samples.gateway_on]))%nat)
    by (cbn; lia).
  assert (H4 : NoDup (map poi_id (pois (MoreSamples.optimizer_at_range 1000))))
    by (cbn; repeat constructor; intros []).
  assert (H5 : forallb
                 (within_reach
                    (filter is_active_sn [Samples.sensor_on; Samples.gateway_on]))
                 (pois (MoreSamples.optimizer_at_range 1000)) = true).
  { cbn -[Models.haversine_distance Rle_bool].
    rewrite ModelsExtra.haversine_distance_zero.
    unfold Rle_bool. destruct (Rle_dec 0 200); [reflexivity | lra]. }
  assert (H6 : _check_connectivity (MoreSamples.optimizer_at_range 1000)
                 (filter is_active_sn [Samples.sensor_on; Samples.gateway_on])
                 (filter is_active_bg [Samples.sensor_on; Samples.gateway_on])
               = true)
    by (apply (sample_link_feasible 1000); lra).
  repeat (split; [assumption|]).
  rewrite (evaluate_full_coverage (MoreSamples.optimizer_at_range 1000)
             [Samples.sensor_on; Samples.gateway_on] H1 H2 H4 H5 H6).
  reflexivity.
Defined.

(** ** Connectivity, continued *)

Lemma linked_in_longer_range (self self' : NetworkOptimizer)
  (nodes : list Node) (i j : nat) :
  max_range_m self <= max_range_m self' ->
  linked self nodes i j -> linked self' nodes i j.
Proof.
  intros Hr. induction 1 as [i|i m j u v Hne Hu Hv Hin _ IH].
  - constructor.
  - apply (linked_hop self' nodes i m j u v); try assumption.
    unfold in_range in *. lra.
Qed.

(** A longer communication range never breaks a network: what the checker
    accepts under one range it accepts under every longer one. *)
Theorem connectivity_monotone_in_range (self self' : NetworkOptimizer)
  (active_sns active_bgs : list Node) :
  Forall (fun u => is_active_sn u = true) active_sns ->
  Forall (fun v => is_active_bg v = true) active_bgs ->
  max_range_m self <= max_range_m self' ->
  _check_connectivity self active_sns active_bgs = true ->
  _check_connectivity self' active_sns active_bgs = true.
Proof.
  intros Hs Hg Hr Hc.
  apply OptimizerFacts.check_connectivity_feasible in Hc; [|assumption..].
  apply OptimizerFacts.check_connectivity_feasible; [assumption..|].
  destruct Hc as [Hne Hall]. split; [exact Hne|].
  intros s Hlt. destruct (Hall s Hlt) as (b & Hb & Hl).
  exists b. split; [exact Hb|].
  apply (linked_in_longer_range self self'); assumption.
Qed.

Lemma connectivity_monotone_in_range_witness :
  Forall (fun u => is_active_sn u = true) [Samples.sensor_on]
  /\ Forall (fun v => is_active_bg v = true) [Samples.gateway_on]
  /\ max_range_m (MoreSamples.optimizer_at_range 500)
     <= max_range_m (MoreSamples.optimizer_at_range 1000)
  /\ _check_connectivity (MoreSamples.optimizer_at_range 500)
       [Samples.sensor_on] [Samples.gateway_on] = true
  /\ _check_connectivity (MoreSamples.optimizer_at_range 1000)
       [Samples.sensor_on] [Samples.gateway_on] = true.
Proof.
  assert (H1 : Forall (fun u => is_active_sn u = true) [Samples.sensor_on])
    by (repeat constructor).
  assert (H2 : Forall (fun v => is_active_bg v = true) [Samples.gateway_on])
    by (repeat constructor).
  assert (H3 : max_range_m (MoreSamples.optimizer_at_range 500)
               <= max_range_m (MoreSamples.optimizer_at_range 1000))
    by (cbn; lra).
  assert (H4 : _check_connectivity (MoreSamples.optimizer_at_range 500)
                 [Samples.sensor_on] [Samples.gateway_on] = true)
    by (apply sample_link_feasible; lra).
  repeat (split; [assumption|]).
  exact (connectivity_monotone_in_range _ _ _ _ H1 H2 H3 H4).
Defined.

(** One sensor out of reach is enough: if some active sensor is farther
    than the communication range from every other active node, the
    checker rejects the individual. *)
Theorem isolated_sensor_infeasible (self : NetworkOptimizer)
  (active_sns active_bgs : list Node) (s : nat) (sensor : Node) :
  Forall (fun u => is_active_sn u = true) active_sns ->
  Forall (fun v => is_active_bg v = true) active_bgs ->
  nth_error active_sns s = Some sensor ->
  (forall j other, j <> s ->
     nth_error (active_sns ++ active_bgs) j = Some other ->
     max_range_m self < node_distance sensor other) ->
  _check_connectivity self active_sns active_bgs = false.
Proof.
  intros Hs Hg Hsensor Hfar.
  destruct (_check_connectivity self active_sns active_bgs) eqn:Hc;
    [|reflexivity].
  exfalso.
  apply OptimizerFacts.check_connectivity_feasible in Hc; [|assumption..].
  destruct Hc as [_ Hall].
  assert (Hlt : (s < List.length active_sns)%nat)
    by (apply nth_error_Some; congruence).
  destruct (Hall s Hlt) as (b & _ & Hl).
  inversion Hl as [i Hi|i m j u v Hne Hu Hv Hin _]; subst.
  - lia.
  - rewrite nth_error_app1 in Hu by exact Hlt.
    assert (u = sensor) by congruence. subst u.
    pose proof (Hfar m v ltac:(congruence) Hv) as Hd.
    unfold in_range in Hin. lra.
Qed.

Lemma far_apart :
  node_distance Samples.sensor_on MoreSamples.gateway_far = 6371000 * PI.
Proof.
  unfold node_distance, Models.haversine_distance, Models.radians. cbn.
  replace ((0 - 0) * PI / 180 / 2) with 0 by field.
  replace ((180 - 0) * PI / 180 / 2) with (PI / 2) by field.
  replace (0 * PI / 180) with 0 by field.
  rewrite sin_0, sin_PI2, cos_0.
  replace (0 * (0 * 1) + 1 * 1 * (1 * (1 * 1))) with 1 by ring.
  rewrite Rminus_diag, sqrt_0, sqrt_1. unfold Models.arctan2.
  destruct (Rlt_dec 0 0); [lra|]. destruct (Rlt_dec 0 1); [|lra]. field.
Qed.

Lemma isolated_sensor_infeasible_witness :
  Forall (fun u => is_active_sn u = true) [Samples.sensor_on]
  /\ Forall (fun v => is_active_bg v = true) [MoreSamples.gateway_far]
  /\ nth_error [Samples.sensor_on] 0 = Some Samples.sensor_on
  /\ _check_connectivity (MoreSamples.optimizer_at_range 1000)
       [Samples.sensor_on] [MoreSamples.gateway_far] = false.
Proof.
  assert (H1 : Forall (fun u => is_active_sn u = true) [Samples.sensor_on])
    by (repeat constructor).
  assert (H2 : Forall (fun v => is_active_bg v = true)
                 [MoreSamples.gateway_far])
    by (repeat constructor).
  repeat (split; [assumption || reflexivity|]).
  apply (isolated_sensor_infeasible (MoreSamples.optimizer_at_range 1000)
           [Samples.sensor_on] [MoreSamples.gateway_far] 0
           Samples.sensor_on H1 H2 eq_refl).
  intros j other Hj Hnth.
  destruct j as [|[|j]]; [congruence | | destruct j; discriminate].
  injection Hnth as <-. rewrite far_apart.
  pose proof PI2_1. cbn. lra.
Defined.

(** ** Depth plays no part in the fitness *)

Section Depth.
Variable new_depth : Node -> R.
Let h := at_depth new_depth.

Lemma filter_at_depth (p : Node -> bool) (l : list Node) :
  (forall node, p (h node) = p node) ->
  filter p (map h l) = map h (filter p l).
Proof.
  intros Hp. induction l as [|a l IH]; [reflexivity|]. cbn [map filter].
  rewrite Hp, IH. destruct (p a); reflexivity.
Qed.

Lemma existsb_at_depth (p : Node -> bool) (l : list Node) :
  (forall node, p (h node) = p node) ->
  existsb p (map h l) = existsb p l.
Proof.
  intros Hp. induction l as [|a l IH]; [reflexivity|]. cbn [map existsb].
  rewrite Hp, IH. reflexivity.
Qed.

Lemma covered_pois_at_depth (self : NetworkOptimizer) (sns : list Node) :
  covered_pois self (map h sns) = covered_pois self sns.
Proof.
  unfold covered_pois. generalize (empty_set Z).
  induction (pois self) as [|poi ps IH]; intros acc; [reflexivity|].
  cbn [fold_left]. rewrite existsb_at_depth by reflexivity. apply IH.
Qed.

Lemma tagged_positions_at_depth (l : list Node) :
  forall idx : list nat,
    map fst (filter (fun p => (node_type (snd p) =? 1)%Z)
                    (combine idx (map h l)))
    = map fst (filter (fun p => (node_type (snd p) =? 1)%Z) (combine idx l)).
Proof.
  induction l as [|a l IH]; intros [|i idx]; try reflexivity.
  cbn [map combine filter snd]. change (node_type (h a)) with (node_type a).
  destruct (node_type a =? 1)%Z; cbn [map fst]; rewrite IH; reflexivity.
Qed.

Lemma build_graph_at_depth (self : NetworkOptimizer) (l : list Node)
  (null : Node) :
  build_graph self (map h l) (h null) = build_graph self l null.
Proof.
  unfold build_graph. rewrite length_map. f_equal.
  apply flat_map_ext. intros i. apply flat_map_ext. intros j.
  rewrite !map_nth. reflexivity.
Qed.

Lemma check_connectivity_at_depth (self : NetworkOptimizer)
  (sns bgs : list Node) :
  _check_connectivity self (map h sns) (map h bgs)
  = _check_connectivity self sns bgs.
Proof.
  destruct bgs as [|null rest]; [reflexivity|].
  unfold _check_connectivity. cbn [map].
  change (map h sns ++ h null :: map h rest)
    with (map h sns ++ map h (null :: rest)).
  rewrite <- map_app, build_graph_at_depth. unfold enumerate.
  rewrite tagged_positions_at_depth, !length_map. reflexivity.
Qed.

(** The depth of the nodes plays no part in the fitness: an individual
    whose nodes are moved to any other depths gets the same evaluation. *)
Theorem evaluate_ignores_depth (self : NetworkOptimizer)
  (individual : Individual) :
  _evaluate self (map (at_depth new_depth) individual)
  = _evaluate self individual.
Proof.
  fold h. unfold _evaluate.
  rewrite !filter_at_depth by reflexivity.
  rewrite !length_map, covered_pois_at_depth, check_connectivity_at_depth.
  reflexivity.
Qed.

End Depth.

(** ** Reading a solution *)

Lemma disjoint_filters {A} (f g : A -> bool) (l : list A) :
  (forall x, f x = true -> g x = false) ->
  (List.length (filter f l) + List.length (filter g l) <= List.length l)%nat.
Proof.
  intros Hfg. induction l as [|a l IH]; [cbn; lia|]. cbn [filter].
  destruct (f a) eqn:Ef.
  - rewrite (Hfg a Ef). cbn [List.length]. lia.
  - destruct (g a); cbn [List.length]; lia.
Qed.

(** A solution lists only nodes of the individual: its sensors are the
    active nodes of type 0, its gateways the active nodes of type 1, the
    two counts are the lengths of the two lists, and together they never
    exceed the number of nodes of the individual. *)
Theorem extract_solution_counts (costs : Economics.EquipmentCosts)
  (rates : Economics.OpexRates) (individual : Individual)
  (fitness_values : R * R) :
  let solution := extract_solution costs rates individual fitness_values in
  num_sns solution = Z.of_nat (List.length (sensor_nodes solution))
  /\ num_bgs solution = Z.of_nat (List.length (gateway_buoys solution))
  /\ Forall (fun node => In node individual /\ node_type node = 0%Z
                         /\ active node = 1%Z) (sensor_nodes solution)
  /\ Forall (fun node => In node individual /\ node_type node = 1%Z
                         /\ active node = 1%Z) (gateway_buoys solution)
  /\ (num_sns solution + num_bgs solution
      <= Z.of_nat (List.length individual))%Z.
Proof.
  destruct fitness_values as [cost coverage]. cbn.
  split; [reflexivity|]. split; [reflexivity|].
  split; [|split].
  - apply Forall_forall. intros node Hin. apply filter_In in Hin as [Hin Ha].
    apply andb_true_iff in Ha as [Ht Ha].
    apply Z.eqb_eq in Ht, Ha. auto.
  - apply Forall_forall. intros node Hin. apply filter_In in Hin as [Hin Ha].
    apply andb_true_iff in Ha as [Ht Ha].
    apply Z.eqb_eq in Ht, Ha. auto.
  - pose proof (disjoint_filters is_active_sn is_active_bg individual) as H.
    assert (Hd : forall x, is_active_sn x = true -> is_active_bg x = false).
    { intros x Hx. apply andb_true_iff in Hx as [Ht _].
      apply Z.eqb_eq in Ht. unfold is_active_bg. rewrite Ht. reflexivity. }
    specialize (H Hd). lia.
Qed.

(** The cost per point of coverage of an evaluated individual is infinite
    exactly when its coverage is zero, which is the case of every
    individual without an active sensor or without an active gateway. *)
Theorem cost_per_coverage_infinite (self : NetworkOptimizer)
  (costs : Economics.EquipmentCosts) (rates : Economics.OpexRates)
  (individual : Individual) (fitness_values : R * R) :
  _evaluate self individual = Ok fitness_values ->
  (cost_per_coverage
     (extract_solution costs rates individual fitness_values) = Infinity
   <-> snd fitness_values = 0)
  /\ (List.length (filter is_active_sn individual) = 0%nat
      \/ List.length (filter is_active_bg individual) = 0%nat ->
      cost_per_coverage
        (extract_solution costs rates individual fitness_values) = Infinity).
Proof.
  intros Hev.
  pose proof (evaluate_outcome_cases self individual) as Hrange.
  rewrite Hev in Hrange. destruct fitness_values as [cost coverage].
  assert (Hiff : cost_per_coverage
                   (extract_solution costs rates individual (cost, coverage))
                 = Infinity <-> coverage = 0).
  { cbn. unfold Rlt_bool. destruct (Rlt_dec 0 coverage); split; intros H;
      discriminate || lra || reflexivity. }
  split; [exact Hiff|]. intros Hdeg. apply Hiff.
  rewrite (OptimizerFacts.evaluate_penalty self individual Hdeg) in Hev.
  injection Hev as _ <-. reflexivity.
Qed.

Lemma cost_per_coverage_infinite_witness :
  _evaluate (MoreSamples.optimizer_at_range 1000)
    [Samples.sensor_on; Samples.gateway_off] = Ok (1000000, 0)
  /\ cost_per_coverage
       (extract_solution Economics.EQUIPMENT_COSTS Economics.OPEX_RATES
          [Samples.sensor_on; Samples.gateway_off] (1000000, 0))
     = Infinity.
Proof.
  assert (H : _evaluate (MoreSamples.optimizer_at_range 1000)
                [Samples.sensor_on; Samples.gateway_off] = Ok (1000000, 0))
    by (apply OptimizerFacts.evaluate_penalty; right; reflexivity).
  split; [exact H|].
  apply (proj2 (cost_per_coverage_infinite
                  (MoreSamples.optimizer_at_range 1000)
                  Economics.EQUIPMENT_COSTS Economics.OPEX_RATES
                  [Samples.sensor_on; Samples.gateway_off] (1000000, 0) H)).
  right. reflexivity.
Defined.

End OptimizerExtra.

(** * The Pareto front of the web demo *)

Module WebDataFacts.
Import Py WebData.

Lemma Rle_bool_iff (a b : R) : Rle_bool a b = true <-> a <= b.
Proof. unfold Rle_bool. destruct (Rle_dec a b); split; auto; discriminate. Qed.

Lemma Rlt_bool_iff (a b : R) : Rlt_bool a b = true <-> a < b.
Proof. unfold Rlt_bool. destruct (Rlt_dec a b); split; auto; discriminate. Qed.

Lemma dominates_iff (q p : R * R) :
  dominates q p = true
  <-> fst q <= fst p /\ snd p <= snd q /\ (fst q < fst p \/ snd p < snd q).
Proof.
  unfold dominates.
  rewrite !andb_true_iff, orb_true_iff, !Rle_bool_iff, !Rlt_bool_iff. tauto.
Qed.

Lemma dominates_ahead (q p : R * R) : dominates q p = true -> ahead q p.
Proof. rewrite dominates_iff. unfold ahead. lra. Qed.

Lemma foremost (population : list (R * R)) :
  population <> [] ->
  exists p, In p population /\ forall q, In q population -> ~ ahead q p.
Proof.
  induction population as [|x rest IH]; [congruence|]. intros _.
  destruct rest as [|y rest].
  - exists x. split; [now left|]. intros q [<-|[]]. unfold ahead. lra.
  - destruct (IH ltac:(discriminate)) as (m & Hm & Hbest).
    destruct (Rlt_dec (fst x) (fst m)) as [Hlt|Hge].
    + exists x. split; [now left|]. intros q [<-|Hq]; unfold ahead.
      * lra.
      * specialize (Hbest q Hq). unfold ahead in Hbest. lra.
    + destruct (Req_dec (fst x) (fst m)) as [Heq|Hne].
      * destruct (Rlt_dec (snd m) (snd x)) as [Hbetter|Hworse].
        -- exists x. split; [now left|]. intros q [<-|Hq]; unfold ahead.
           ++ lra.
           ++ specialize (Hbest q Hq). unfold ahead in Hbest. lra.
        -- exists m. split; [now right|]. intros q [<-|Hq].
           ++ unfold ahead. lra.
           ++ apply Hbest. exact Hq.
      * exists m. split; [now right|]. intros q [<-|Hq].
        -- unfold ahead. lra.
        -- apply Hbest. exact Hq.
Qed.

(** The front computed for a snapshot holds exactly the points of the
    population that no point of the population dominates, and it is never
    empty when the population is not. *)
Theorem pareto_gen_front (population : list (R * R)) :
  (forall p, In p (pareto_gen population)
             <-> In p population
                 /\ forall q, In q population -> dominates q p = false)
  /\ (population <> [] -> pareto_gen population <> []).
Proof.
  assert (Hchar : forall p, In p (pareto_gen population)
                            <-> In p population
                                /\ forall q, In q population ->
                                             dominates q p = false).
  { intros p. unfold pareto_gen. rewrite filter_In, negb_true_iff. split.
    - intros [Hin Hnone]. split; [exact Hin|]. intros q Hq.
      destruct (dominates q p) eqn:Hd; [|reflexivity].
      assert (existsb (fun q => dominates q p) population = true)
        by (apply existsb_exists; eauto).
      congruence.
    - intros [Hin Hnone]. split; [exact Hin|].
      destruct (existsb _ population) eqn:He; [|reflexivity].
      apply existsb_exists in He as (q & Hq & Hd).
      rewrite (Hnone q Hq) in Hd. discriminate. }
  split; [exact Hchar|]. intros Hne.
  destruct (foremost population Hne) as (p & Hp & Hbest).
  assert (Hin : In p (pareto_gen population)).
  { apply Hchar. split; [exact Hp|]. intros q Hq.
    destruct (dominates q p) eqn:Hd; [|reflexivity].
    exfalso. apply (Hbest q Hq), dominates_ahead, Hd. }
  intros Hempty. rewrite Hempty in Hin. destruct Hin.
Qed.

End WebDataFacts.
